(** * A single-tape Turing machine simulator with a memory cache

    Shallow embedding of [turing_machine.py] (the [Transition] dataclass and
    the [TuringMachine] class) and the properties of its simulation engine.

    Modelling conventions.
    - A Python [str] is a [string], its characters being [ascii]; a
      one-character string is [String c EmptyString].
    - [Optional[str]] is [option string]; [None] is the blank.
    - A Python [int] is a [Z]; a Python [list] is a [list], indexed the way
      Python indexes it (negative indices count from the end, an index out
      of range raises [IndexError]).
    - A Python call that may raise returns an [outcome]. *)

From Stdlib Require Import ZArith List String Ascii Bool Lia.
Import ListNotations.

Local Open Scope string_scope.
Local Open Scope Z_scope.

(** ** Exceptions and results *)

Inductive exn : Type :=
| IndexError
| KeyError (key : string).

(** [OutOfFuel] is not a Python behaviour: it is what the model of the
    [while] loop answers when its recursion measure is used up before the
    loop condition fails.  [simulate_total] shows it never happens. *)
Inductive outcome (A : Type) : Type :=
| Ok (a : A)
| Raise (e : exn)
| OutOfFuel.

Arguments Ok {A} a.
Arguments Raise {A} e.
Arguments OutOfFuel {A}.

Definition bind {A B : Type} (m : outcome A) (k : A -> outcome B) : outcome B :=
  match m with
  | Ok a => k a
  | Raise e => Raise e
  | OutOfFuel => OutOfFuel
  end.

Notation "x <- m ;; k" := (bind m (fun x => k))
  (at level 61, m at next level, right associativity).

(** ** The Python operations the simulator uses *)

Module Py.

Definition len {A : Type} (l : list A) : Z := Z.of_nat (List.length l).

(** [index l i] is the position [l[i]] denotes, when there is one. *)
Definition index {A : Type} (l : list A) (i : Z) : outcome nat :=
  let j := if i <? 0 then i + len l else i in
  if (j <? 0) || (len l <=? j) then Raise IndexError else Ok (Z.to_nat j).

(** [l[i]] *)
Definition getitem {A : Type} (l : list A) (i : Z) : outcome A :=
  j <- index l i ;;
  match nth_error l j with
  | Some x => Ok x
  | None => Raise IndexError
  end.

Fixpoint update {A : Type} (l : list A) (j : nat) (v : A) : list A :=
  match l, j with
  | [], _ => []
  | _ :: l', O => v :: l'
  | x :: l', S j' => x :: update l' j' v
  end.

(** [l[i] = v] *)
Definition setitem {A : Type} (l : list A) (i : Z) (v : A) : outcome (list A) :=
  j <- index l i ;;
  Ok (update l j v).

(** [l.insert(0, v)] *)
Definition insert0 {A : Type} (l : list A) (v : A) : list A := v :: l.

(** [l.append(v)] *)
Definition append {A : Type} (l : list A) (v : A) : list A := (l ++ [v])%list.

(** The start of a slice: a negative bound counts from the end, and the
    result is clipped to the list. *)
Definition bound {A : Type} (l : list A) (i : Z) : nat :=
  Z.to_nat (if i <? 0 then Z.max 0 (i + len l) else i).

(** [l[:i]] *)
Definition slice_to {A : Type} (l : list A) (i : Z) : list A :=
  firstn (bound l i) l.

(** [l[i:]] *)
Definition slice_from {A : Type} (l : list A) (i : Z) : list A :=
  skipn (bound l i) l.

(** ["".join(l)] *)
Definition join (l : list string) : string := String.concat EmptyString l.

(** [list(s)]: the characters of [s], each a one-character string. *)
Fixpoint list_of_str (s : string) : list string :=
  match s with
  | EmptyString => []
  | String c s' => String c EmptyString :: list_of_str s'
  end.

(** [a == b] on [Optional[str]] *)
Definition eqb (a b : option string) : bool :=
  match a, b with
  | None, None => true
  | Some x, Some y => String.eqb x y
  | _, _ => false
  end.

End Py.

(** ** [class Transition] *)

Module Transition.

Record t : Type := mk {
  initial_state : string;
  mem_cache_value : option string;
  tape_input : option string;
  final_state : string;
  new_mem_cache_value : option string;
  tape_output : option string;
  tape_displacement : string
}.

End Transition.

(** ** The configuration dictionary handed to [TuringMachine.__init__]

    Each dictionary the constructor reads is a record with one field per key
    it looks up.  In the [params] and [output] dictionaries of a [delta]
    item a key may be missing ([None] at the outer level); a present key
    holds YAML [null] ([Some None]) or a string.  The four top-level keys
    are checked by [parse_yaml_file] before the constructor runs, and the
    three keys of [q_states] are taken as present; [simulation_strings] is
    optional. *)

Module Config.

Record q_states_dict : Type := mk_q_states {
  q_list : list string;
  initial : string;
  final : string
}.

Record params_dict : Type := mk_params {
  initial_state : option string;
  mem_cache_value : option (option string);
  tape_input : option (option string)
}.

Record output_dict : Type := mk_output {
  final_state : option string;
  output_mem_cache_value : option (option string);  (* key [mem_cache_value] *)
  tape_output : option (option string);
  tape_displacement : option string
}.

Record delta_item : Type := mk_delta_item {
  params : params_dict;
  output : output_dict
}.

Record t : Type := mk {
  q_states : q_states_dict;
  alphabet : list string;
  tape_alphabet : list string;
  delta : list delta_item;
  simulation_strings : option (list string)
}.

(** [d[key]] *)
Definition item {A : Type} (key : string) (v : option A) : outcome A :=
  match v with
  | Some x => Ok x
  | None => Raise (KeyError key)
  end.

(** [d.get(key)] *)
Definition get (v : option (option string)) : option string :=
  match v with
  | Some x => x
  | None => None
  end.

End Config.

(** ** [class TuringMachine] *)

Module TuringMachine.

Record t : Type := mk {
  states : list string;
  initial_state : string;
  final_state : string;
  alphabet : list string;
  tape_alphabet : list string;
  transitions : list Transition.t;
  simulation_strings : list string
}.

(** [if x is None or x == '': x = None] *)
Definition blank_if_empty (x : option string) : option string :=
  match x with
  | None => None
  | Some s => if String.eqb s EmptyString then None else Some s
  end.

(** The body of the [for delta_item in config['delta']] loop. *)
Definition make_transition (delta_item : Config.delta_item)
  : outcome Transition.t :=
  let params := Config.params delta_item in
  let output := Config.output delta_item in
  let mem_cache_in := blank_if_empty (Config.get (Config.mem_cache_value params)) in
  tape_input <- Config.item "tape_input" (Config.tape_input params) ;;
  let tape_input := blank_if_empty tape_input in
  let mem_cache_out := blank_if_empty (Config.get (Config.output_mem_cache_value output)) in
  let tape_output := blank_if_empty (Config.get (Config.tape_output output)) in
  initial_state <- Config.item "initial_state" (Config.initial_state params) ;;
  final_state <- Config.item "final_state" (Config.final_state output) ;;
  tape_displacement <- Config.item "tape_displacement" (Config.tape_displacement output) ;;
  Ok (Transition.mk initial_state mem_cache_in tape_input
                    final_state mem_cache_out tape_output tape_displacement).

Fixpoint make_transitions (delta : list Config.delta_item)
  : outcome (list Transition.t) :=
  match delta with
  | [] => Ok []
  | delta_item :: rest =>
      transition <- make_transition delta_item ;;
      transitions <- make_transitions rest ;;
      Ok (transition :: transitions)
  end.

(** [TuringMachine.__init__] *)
Definition __init__ (config : Config.t) : outcome t :=
  transitions <- make_transitions (Config.delta config) ;;
  Ok (mk (Config.q_list (Config.q_states config))
         (Config.initial (Config.q_states config))
         (Config.final (Config.q_states config))
         (Config.alphabet config)
         (Config.tape_alphabet config)
         transitions
         (match Config.simulation_strings config with
          | Some l => l
          | None => []
          end)).

(** The [for transition in self.transitions] loop of [find_transition]. *)
Fixpoint find_in (transitions : list Transition.t) (state : string)
    (mem_cache tape_input : option string) : option Transition.t :=
  match transitions with
  | [] => None
  | transition :: rest =>
      if negb (String.eqb (Transition.initial_state transition) state) then
        find_in rest state mem_cache tape_input
      else if negb (Py.eqb (Transition.mem_cache_value transition) mem_cache) then
        find_in rest state mem_cache tape_input
      else
        let transition_input := blank_if_empty (Transition.tape_input transition) in
        if Py.eqb transition_input tape_input then Some transition
        else find_in rest state mem_cache tape_input
  end.

Definition find_transition (self : t) (state : string)
    (mem_cache tape_symbol : option string) : option Transition.t :=
  let tape_input :=
    match tape_symbol with Some s => Some s | None => None end in
  find_in (transitions self) state mem_cache tape_input.

Definition _symbol_to_str (symbol : option string) : string :=
  match symbol with
  | None => "B"
  | Some s => s
  end.

(** In the last branch [0 <= position < len(tape)], so [tape[position]]
    is the cell at that offset and cannot raise ([getitem_in_range]). *)
Definition _create_instant_description (tape : list (option string))
    (position : Z) (state : string) (mem_cache : option string) : string :=
  let state_part := "[" ++ state in
  let state_part :=
    match mem_cache with
    | Some c => state_part ++ ("," ++ c)
    | None => state_part
    end in
  let state_part := state_part ++ "]" in
  if position <? 0 then
    state_part ++ "B" ++ Py.join (map _symbol_to_str tape)
  else if position >=? Py.len tape then
    Py.join (map _symbol_to_str tape) ++ state_part ++ "B"
  else
    let left_part := Py.join (map _symbol_to_str (Py.slice_to tape position)) in
    let current_symbol :=
      _symbol_to_str (nth (Z.to_nat position) tape None) in
    let right_part :=
      Py.join (map _symbol_to_str (Py.slice_from tape (position + 1))) in
    left_part ++ state_part ++ current_symbol ++ right_part.

(** The local variables of [simulate] that make up the machine's
    configuration. *)
Record config : Type := mk_config {
  tape : list (option string);
  tape_position : Z;
  current_state : string;
  mem_cache : option string
}.

Definition describe (c : config) : string :=
  _create_instant_description (tape c) (tape_position c)
                              (current_state c) (mem_cache c).

Definition max_steps : Z := 10000.

(** Lines 141-147: materialize the cell under the head. *)
Definition extend (tape : list (option string)) (tape_position : Z)
  : list (option string) * Z :=
  if tape_position <? 0 then (Py.insert0 tape None, 0)
  else if tape_position >=? Py.len tape then (Py.append tape None, tape_position)
  else (tape, tape_position).

(** Lines 169-172. *)
Definition move (tape_displacement : string) (tape_position : Z) : Z :=
  if String.eqb tape_displacement "L" then tape_position - 1
  else if String.eqb tape_displacement "R" then tape_position + 1
  else tape_position.

(** Lines 140-172 of the loop body: read, look up, write, move.
    [Ok None] is the [break]. *)
Definition apply_step (self : t) (c : config) : outcome (option config) :=
  let '(tape, tape_position) := extend (tape c) (tape_position c) in
  current_symbol <- Py.getitem tape tape_position ;;
  match find_transition self (current_state c) (mem_cache c) current_symbol with
  | None => Ok None
  | Some transition =>
      let current_state := Transition.final_state transition in
      let mem_cache := Transition.new_mem_cache_value transition in
      tape <- Py.setitem tape tape_position
                (match Transition.tape_output transition with
                 | Some s => Some s
                 | None => None
                 end) ;;
      let tape_position :=
        move (Transition.tape_displacement transition) tape_position in
      Ok (Some (mk_config tape tape_position current_state mem_cache))
  end.

(** The [while step < max_steps] loop and the final [return].  [fuel]
    only makes the recursion structural. *)
Fixpoint while_loop (fuel : nat) (self : t) (c : config)
    (instant_descriptions : list string) (step : Z)
  : outcome (list string * bool) :=
  if step <? max_steps then
    match fuel with
    | O => OutOfFuel
    | S fuel' =>
        next <- apply_step self c ;;
        match next with
        | None => Ok (instant_descriptions, false)
        | Some c' =>
            let id_str := describe c' in
            let instant_descriptions := Py.append instant_descriptions id_str in
            if String.eqb (current_state c') (final_state self) then
              Ok (instant_descriptions, true)
            else
              while_loop fuel' self c' instant_descriptions (step + 1)
        end
    end
  else Ok (instant_descriptions, false).

(** The configuration [simulate] starts from: every character of the
    input is a (non-blank) cell. *)
Definition initial_config (self : t) (input_string : string) : config :=
  mk_config (map Some (Py.list_of_str input_string)) 0 (initial_state self) None.

Definition simulate (self : t) (input_string : string)
  : outcome (list string * bool) :=
  let c := initial_config self input_string in
  let instant_descriptions := [] in
  let id_str := describe c in
  let instant_descriptions := Py.append instant_descriptions id_str in
  let step := 0 in
  while_loop (Z.to_nat max_steps) self c instant_descriptions step.

End TuringMachine.

Import TuringMachine.

(** ** Runs of the loop

    [run self step c cs h]: entered with counter [step] in configuration
    [c], the [while] loop of [simulate] applies [length cs] transitions,
    which lead through the configurations [cs] in turn, and then halts for
    the reason [h]. *)

Inductive halt : Type :=
| HaltFinal         (* line 181: [return instant_descriptions, True] *)
| HaltNoTransition  (* line 156: [break] *)
| HaltStepBound.    (* line 139: [step < max_steps] fails *)

Definition accepts (h : halt) : bool :=
  match h with
  | HaltFinal => true
  | _ => false
  end.

Inductive run (self : t) : Z -> config -> list config -> halt -> Prop :=
| run_bound step c :
    max_steps <= step ->
    run self step c [] HaltStepBound
| run_break step c :
    step < max_steps ->
    apply_step self c = Ok None ->
    run self step c [] HaltNoTransition
| run_final step c c' :
    step < max_steps ->
    apply_step self c = Ok (Some c') ->
    current_state c' = final_state self ->
    run self step c [c'] HaltFinal
| run_next step c c' cs h :
    step < max_steps ->
    apply_step self c = Ok (Some c') ->
    current_state c' <> final_state self ->
    run self (step + 1) c' cs h ->
    run self step c (c' :: cs) h.

(** [chain self c cs]: each configuration of [cs] is what one iteration
    makes of the one before it, starting from [c]. *)
Fixpoint chain (self : t) (c : config) (cs : list config) : Prop :=
  match cs with
  | [] => True
  | c' :: cs' => apply_step self c = Ok (Some c') /\ chain self c' cs'
  end.

(** [reaches self c c']: applying transitions of [self] leads from [c] to
    [c'] (in zero or more steps, whatever the step bound). *)
Inductive reaches (self : t) (c : config) : config -> Prop :=
| reaches_here : reaches self c c
| reaches_step c' c'' :
    reaches self c c' ->
    apply_step self c' = Ok (Some c'') ->
    reaches self c c''.

(** What an iteration turns the configuration into, given the rule found. *)
Definition after (c : config) (transition : Transition.t) : config :=
  let tp := extend (tape c) (tape_position c) in
  mk_config (Py.update (fst tp) (Z.to_nat (snd tp)) (Transition.tape_output transition))
            (move (Transition.tape_displacement transition) (snd tp))
            (Transition.final_state transition)
            (Transition.new_mem_cache_value transition).

(** The symbol the iteration reads. *)
Definition scanned (c : config) : option string :=
  let tp := extend (tape c) (tape_position c) in
  nth (Z.to_nat (snd tp)) (fst tp) None.

(** The symbol under the head when [simulate] starts: the first character
    of the input, or blank when the input is empty. *)
Definition first_symbol (input_string : string) : option string :=
  match input_string with
  | EmptyString => None
  | String a _ => Some (String a EmptyString)
  end.

(** The head is on the materialized tape or one cell off either end. *)
Definition head_near_tape (c : config) : Prop :=
  -1 <= tape_position c <= Py.len (tape c).

(** Cells that all hold the blank. *)
Definition all_blank (l : list (option string)) : Prop :=
  Forall (fun s => s = None) l.

(** ** Instantaneous descriptions, as the specification words them *)

(** The bracketed marker: the state, and the cache when it is not blank. *)
Definition marker (state : string) (cache : option string) : string :=
  match cache with
  | None => "[" ++ state ++ "]"
  | Some value => "[" ++ state ++ "," ++ value ++ "]"
  end.

(** The content of a stretch of tape, a blank cell written [B]. *)
Fixpoint cells (l : list (option string)) : string :=
  match l with
  | [] => EmptyString
  | None :: l' => "B" ++ cells l'
  | Some s :: l' => s ++ cells l'
  end.

(** ** Matching, as the specification words it

    The claim about [find_transition]: state equal, cache and tape symbol
    equal after [None] and the empty string are collapsed to the blank on
    both sides. *)
Definition spec_matches (transition : Transition.t) (state : string)
    (cache symbol : option string) : Prop :=
  Transition.initial_state transition = state /\
  blank_if_empty (Transition.mem_cache_value transition) = blank_if_empty cache /\
  blank_if_empty (Transition.tape_input transition) = blank_if_empty symbol.

(** Matching, as [find_transition] tests it: the cache as stored against
    the cache as given, the stored tape symbol with the empty string
    collapsed to blank against the symbol as given. *)
Definition code_matches (transition : Transition.t) (state : string)
    (cache symbol : option string) : Prop :=
  Transition.initial_state transition = state /\
  Transition.mem_cache_value transition = cache /\
  blank_if_empty (Transition.tape_input transition) = symbol.

(** The cache operand of a stored transition is never the empty string. *)
Definition cache_normal (transition : Transition.t) : Prop :=
  Transition.mem_cache_value transition <> Some EmptyString.

(** [first_match P l x]: [x] is the earliest element of [l] that satisfies [P]. *)
Definition first_match {A : Type} (P : A -> Prop) (l : list A) (x : A) : Prop :=
  exists before after : list A,
    l = (before ++ x :: after)%list /\ P x /\ forall y, In y before -> ~ P y.

(** ** Two encodings of blank in a configuration *)

(** The same value, or YAML [null] on one side and the empty string on the other. *)
Definition same_blank (a b : option (option string)) : Prop :=
  a = b \/
  (a = Some None /\ b = Some (Some EmptyString)) \/
  (a = Some (Some EmptyString) /\ b = Some None).

Definition same_item (d1 d2 : Config.delta_item) : Prop :=
  let p1 := Config.params d1 in
  let p2 := Config.params d2 in
  let o1 := Config.output d1 in
  let o2 := Config.output d2 in
  Config.initial_state p1 = Config.initial_state p2 /\
  same_blank (Config.mem_cache_value p1) (Config.mem_cache_value p2) /\
  same_blank (Config.tape_input p1) (Config.tape_input p2) /\
  Config.final_state o1 = Config.final_state o2 /\
  same_blank (Config.output_mem_cache_value o1) (Config.output_mem_cache_value o2) /\
  same_blank (Config.tape_output o1) (Config.tape_output o2) /\
  Config.tape_displacement o1 = Config.tape_displacement o2.

(** Two configurations identical except for the encoding of blanks. *)
Definition same_config (c1 c2 : Config.t) : Prop :=
  Config.q_states c1 = Config.q_states c2 /\
  Config.alphabet c1 = Config.alphabet c2 /\
  Config.tape_alphabet c1 = Config.tape_alphabet c2 /\
  Forall2 same_item (Config.delta c1) (Config.delta c2) /\
  Config.simulation_strings c1 = Config.simulation_strings c2.

(** ** Example machines *)

(** states [q0, q1], initial [q0], final [q1], one rule
    [(q0, blank, a) -> (q1, blank, a, R)] *)
Definition one_rule_config (alphabet tape_alphabet : list string) : Config.t :=
  Config.mk (Config.mk_q_states ["q0"; "q1"] "q0" "q1") alphabet tape_alphabet
    [Config.mk_delta_item
       (Config.mk_params (Some "q0") (Some None) (Some (Some "a")))
       (Config.mk_output (Some "q1") (Some None) (Some (Some "a")) (Some "R"))]
    None.

Definition one_rule_machine (alphabet tape_alphabet : list string) : t :=
  mk ["q0"; "q1"] "q0" "q1" alphabet tape_alphabet
     [Transition.mk "q0" None (Some "a") "q1" None (Some "a") "R"] [].

(** One rule on blank, [(q0, blank, blank) -> (q0, blank, blank, S)], with
    the blank operands written as YAML [null]; [q1] is never reached. *)
Definition spin_config : Config.t :=
  Config.mk (Config.mk_q_states ["q0"; "q1"] "q0" "q1") ["a"] ["a"]
    [Config.mk_delta_item
       (Config.mk_params (Some "q0") (Some None) (Some None))
       (Config.mk_output (Some "q0") (Some None) (Some None) (Some "S"))]
    None.

(** The same, with the blank operands written as empty strings. *)
Definition spin_config_empty : Config.t :=
  Config.mk (Config.mk_q_states ["q0"; "q1"] "q0" "q1") ["a"] ["a"]
    [Config.mk_delta_item
       (Config.mk_params (Some "q0") (Some (Some EmptyString)) (Some (Some EmptyString)))
       (Config.mk_output (Some "q0") (Some (Some EmptyString)) (Some (Some EmptyString)) (Some "S"))]
    None.

Definition spin_machine : t :=
  mk ["q0"; "q1"] "q0" "q1" ["a"] ["a"]
     [Transition.mk "q0" None None "q0" None None "S"] [].

(** No rule at all, and the initial state is also the final one. *)
Definition idle_machine : t :=
  mk ["q0"] "q0" "q0" ["a"] ["a"] [] [].

(** ** The loaded dictionary and [parse_yaml_file]

    What [yaml.safe_load] hands to the checks of [parse_yaml_file] is the
    dictionary of the file: here any of its top-level keys may be missing. *)

Module Document.

Record t : Type := mk {
  q_states : option Config.q_states_dict;
  alphabet : option (list string);
  tape_alphabet : option (list string);
  delta : option (list Config.delta_item);
  simulation_strings : option (list string)
}.

(** [key in config] *)
Definition has {A : Type} (v : option A) : bool :=
  match v with
  | Some _ => true
  | None => false
  end.

End Document.

(** What the checks of [parse_yaml_file] end in. *)
Inductive checked (A : Type) : Type :=
| Returned (a : A)
| ValueError (message : string).

Arguments Returned {A} a.
Arguments ValueError {A} message.

(** Lines 22-32 of [parse_yaml_file], on the dictionary loaded at line 20. *)
Definition parse_yaml_file (config : Document.t) : checked Document.t :=
  if negb (Document.has (Document.q_states config)) then
    ValueError "El archivo YAML debe contener 'q_states'"
  else if negb (Document.has (Document.alphabet config)) then
    ValueError "El archivo YAML debe contener 'alphabet'"
  else if negb (Document.has (Document.tape_alphabet config)) then
    ValueError "El archivo YAML debe contener 'tape_alphabet'"
  else if negb (Document.has (Document.delta config)) then
    ValueError "El archivo YAML debe contener 'delta'"
  else Returned config.


(** ** Words for the further properties *)



(** [stores v x]: the configuration value [v] (a key that may be missing,
    holding [null] or a string) is kept as [x]: blank for a missing key,
    [null] and the empty string, the string itself otherwise. *)
Definition stores (v : option (option string)) (x : option string) : Prop :=
  (x = None /\ (v = None \/ v = Some None \/ v = Some (Some EmptyString))) \/
  (exists s, s <> EmptyString /\ v = Some (Some s) /\ x = Some s).

(** A transition as built from a [delta] item. *)
Definition built_from (d : Config.delta_item) (x : Transition.t) : Prop :=
  Config.initial_state (Config.params d) = Some (Transition.initial_state x) /\
  stores (Config.mem_cache_value (Config.params d)) (Transition.mem_cache_value x) /\
  stores (Config.tape_input (Config.params d)) (Transition.tape_input x) /\
  Config.final_state (Config.output d) = Some (Transition.final_state x) /\
  stores (Config.output_mem_cache_value (Config.output d))
         (Transition.new_mem_cache_value x) /\
  stores (Config.tape_output (Config.output d)) (Transition.tape_output x) /\
  Config.tape_displacement (Config.output d) = Some (Transition.tape_displacement x).

(** Neither the cache a transition leaves nor the symbol it writes is the
    empty string. *)
Definition output_normal (transition : Transition.t) : Prop :=
  Transition.new_mem_cache_value transition <> Some EmptyString /\
  Transition.tape_output transition <> Some EmptyString.

(** No cell and no cache value of the configuration is the empty string. *)
Definition no_empty_string (c : config) : Prop :=
  mem_cache c <> Some EmptyString /\
  Forall (fun s => s <> Some EmptyString) (tape c).

(** Two machines with the same initial state, final state and table. *)
Definition same_program (m1 m2 : t) : Prop :=
  initial_state m1 = initial_state m2 /\
  final_state m1 = final_state m2 /\
  transitions m1 = transitions m2.




(** A blank cell replaced by a cell that holds the letter B. *)
Definition blank_as_letter (symbol : option string) : option string :=
  match symbol with
  | None => Some "B"
  | Some s => Some s
  end.

(** A machine built by hand whose only rule writes and moves right. *)
Definition writer_machine : t :=
  mk ["q0"; "q1"] "q0" "q1" ["a"] ["a"; "b"]
     [Transition.mk "q0" None (Some "a") "q0" None (Some "b") "R"] [].

(** A loaded dictionary with every key, and one without [delta]. *)
Definition spin_document : Document.t :=
  Document.mk (Some (Config.q_states spin_config)) (Some ["a"]) (Some ["a"])
              (Some (Config.delta spin_config)) None.

Definition no_delta_document : Document.t :=
  Document.mk (Some (Config.q_states spin_config)) (Some ["a"]) (Some ["a"])
              None None.

(** Two table entries that [find_transition] cannot tell apart: the same
    state, the same cache operand as stored, the same tape operand once the
    empty string is collapsed to blank. *)
Definition same_key (x y : Transition.t) : Prop :=
  Transition.initial_state x = Transition.initial_state y /\
  Transition.mem_cache_value x = Transition.mem_cache_value y /\
  blank_if_empty (Transition.tape_input x) = blank_if_empty (Transition.tape_input y).

(** The machine [self] with another table. *)
Definition with_transitions (self : t) (table : list Transition.t) : t :=
  mk (states self) (initial_state self) (final_state self)
     (alphabet self) (tape_alphabet self) table (simulation_strings self).

(** A rule of [writer_machine] and a second rule on the same key. *)
Definition writer_rule : Transition.t :=
  Transition.mk "q0" None (Some "a") "q0" None (Some "b") "R".

Definition shadowed_rule : Transition.t :=
  Transition.mk "q0" None (Some "a") "q1" None (Some "a") "L".


(** ** Facts about the Python operations *)

Section PythonFacts.

Lemma append_empty_r (s : string) : s ++ EmptyString = s.
Proof. induction s as [|a s IH]; simpl; [reflexivity | now rewrite IH]. Qed.

Lemma append_assoc (s1 s2 s3 : string) : (s1 ++ s2) ++ s3 = s1 ++ (s2 ++ s3).
Proof. induction s1 as [|a s1 IH]; simpl; [reflexivity | now rewrite IH]. Qed.

Lemma join_cons (x : string) (l : list string) :
  Py.join (x :: l) = x ++ Py.join l.
Proof.
  unfold Py.join. destruct l as [|y l]; simpl.
  - now rewrite append_empty_r.
  - reflexivity.
Qed.

Lemma join_app (l1 l2 : list string) :
  Py.join (l1 ++ l2)%list = Py.join l1 ++ Py.join l2.
Proof.
  induction l1 as [|x l1 IH].
  - reflexivity.
  - rewrite <- app_comm_cons, !join_cons, IH. now rewrite append_assoc.
Qed.

Context {A : Type}.
Implicit Types (l : list A) (i : Z) (v : A).

Lemma last_cons (x : A) l (d : A) : last (x :: l) d = last l x.
Proof.
  revert x d. induction l as [|y l IH]; intros x d; [reflexivity|].
  change (last (x :: y :: l) d) with (last (y :: l) d).
  now rewrite !IH.
Qed.

Lemma len_nonneg l : 0 <= Py.len l.
Proof. unfold Py.len. lia. Qed.

Lemma update_length l (j : nat) v :
  List.length (Py.update l j v) = List.length l.
Proof.
  revert j. induction l as [|x l IH]; intros [|j]; simpl; auto.
Qed.

Lemma len_update l (j : nat) v : Py.len (Py.update l j v) = Py.len l.
Proof. unfold Py.len. now rewrite update_length. Qed.

Lemma index_in_range l i :
  0 <= i < Py.len l -> Py.index l i = Ok (Z.to_nat i).
Proof.
  intros H. unfold Py.index.
  destruct (i <? 0) eqn:Hneg; [lia|].
  rewrite Hneg.
  destruct (Py.len l <=? i) eqn:Hhigh; [lia|].
  reflexivity.
Qed.

Lemma getitem_in_range l i (d : A) :
  0 <= i < Py.len l -> Py.getitem l i = Ok (nth (Z.to_nat i) l d).
Proof.
  intros H. unfold Py.getitem. rewrite (index_in_range l i H). simpl.
  assert (Hlt : (Z.to_nat i < List.length l)%nat) by (unfold Py.len in H; lia).
  destruct (nth_error l (Z.to_nat i)) as [x|] eqn:Hnth.
  - now rewrite (nth_error_nth _ _ d Hnth).
  - apply nth_error_None in Hnth. lia.
Qed.

Lemma setitem_in_range l i v :
  0 <= i < Py.len l -> Py.setitem l i v = Ok (Py.update l (Z.to_nat i) v).
Proof.
  intros H. unfold Py.setitem. now rewrite (index_in_range l i H).
Qed.

End PythonFacts.

(** ** One iteration of the loop *)

Section Step.

Variable self : t.

Lemma extend_in_range (c : config) :
  head_near_tape c ->
  0 <= snd (extend (tape c) (tape_position c))
    < Py.len (fst (extend (tape c) (tape_position c))).
Proof.
  unfold head_near_tape, extend, Py.insert0, Py.append, Py.len.
  intros H.
  destruct (tape_position c <? 0) eqn:Hneg; simpl.
  - lia.
  - destruct (tape_position c >=? Z.of_nat (List.length (tape c))) eqn:Hhigh; simpl.
    + rewrite length_app. simpl. lia.
    + lia.
Qed.

Lemma apply_step_eq (c : config) :
  head_near_tape c ->
  apply_step self c =
  Ok (option_map (after c)
        (find_transition self (current_state c) (mem_cache c) (scanned c))).
Proof.
  intros H. pose proof (extend_in_range c H) as Hin.
  unfold apply_step, after, scanned.
  destruct (extend (tape c) (tape_position c)) as [tape1 pos1]; simpl in *.
  rewrite (getitem_in_range tape1 pos1 None Hin). simpl.
  destruct (find_transition self (current_state c) (mem_cache c)
              (nth (Z.to_nat pos1) tape1 None)) as [tr|]; simpl; [|reflexivity].
  rewrite (setitem_in_range tape1 pos1 _ Hin). simpl.
  now destruct (Transition.tape_output tr).
Qed.

Lemma move_near (d : string) (p : Z) : p - 1 <= move d p <= p + 1.
Proof.
  unfold move.
  destruct (String.eqb d "L"); [lia|].
  destruct (String.eqb d "R"); lia.
Qed.

Lemma after_near_tape (c : config) (transition : Transition.t) :
  head_near_tape c -> head_near_tape (after c transition).
Proof.
  intros H. pose proof (extend_in_range c H) as Hin.
  unfold head_near_tape, after; simpl. rewrite len_update.
  pose proof (move_near (Transition.tape_displacement transition)
                (snd (extend (tape c) (tape_position c)))).
  lia.
Qed.

Lemma extend_length (tape0 : list (option string)) (p : Z) :
  (List.length tape0 <= List.length (fst (extend tape0 p)))%nat.
Proof.
  unfold extend, Py.insert0, Py.append.
  destruct (p <? 0); simpl; [lia|].
  destruct (p >=? Py.len tape0); simpl; [rewrite length_app; simpl|]; lia.
Qed.

Lemma apply_step_cases (c : config) :
  head_near_tape c ->
  apply_step self c = Ok None \/
  exists c', apply_step self c = Ok (Some c') /\ head_near_tape c' /\
             (List.length (tape c) <= List.length (tape c'))%nat.
Proof.
  intros H. rewrite (apply_step_eq c H).
  destruct (find_transition self (current_state c) (mem_cache c) (scanned c))
    as [tr|]; simpl; [right | now left].
  exists (after c tr). split; [reflexivity|]. split.
  - now apply after_near_tape.
  - unfold after; simpl. rewrite update_length. apply extend_length.
Qed.

Lemma initial_near_tape (input_string : string) :
  head_near_tape (initial_config self input_string).
Proof.
  unfold head_near_tape, initial_config; simpl.
  pose proof (len_nonneg (map Some (Py.list_of_str input_string))). lia.
Qed.

Lemma reaches_near_tape (c c' : config) :
  head_near_tape c -> reaches self c c' -> head_near_tape c'.
Proof.
  intros H R. induction R as [|c' c'' R IH Hs]; [exact H|].
  destruct (apply_step_cases c' IH) as [Hn | (d & Hd & Hnear & _)].
  - congruence.
  - congruence.
Qed.

Lemma reaches_trans (c c' c'' : config) :
  reaches self c c' -> reaches self c' c'' -> reaches self c c''.
Proof.
  intros R1 R2. induction R2 as [|d d' R2 IH Hs]; [exact R1|].
  eapply reaches_step; eauto.
Qed.

Lemma reaches_length (c c' : config) :
  head_near_tape c -> reaches self c c' ->
  (List.length (tape c) <= List.length (tape c'))%nat.
Proof.
  intros H R. induction R as [|c' c'' R IH Hs]; [lia|].
  pose proof (reaches_near_tape c c' H R) as Hnear.
  destruct (apply_step_cases c' Hnear) as [Hn | (d & Hd & _ & Hlen)].
  - congruence.
  - assert (d = c'') by congruence. subst d. lia.
Qed.

End Step.

(** ** The loop follows [run] *)

Section Loop.

Variable self : t.

Lemma while_loop_run (fuel : nat) :
  forall (c : config) (ids : list string) (step : Z),
    head_near_tape c ->
    max_steps - step <= Z.of_nat fuel ->
    exists cs h,
      run self step c cs h /\
      while_loop fuel self c ids step
      = Ok ((ids ++ map describe cs)%list, accepts h).
Proof.
  induction fuel as [|fuel IH]; intros c ids step Hnear Hfuel.
  - exists [], HaltStepBound. split.
    + apply run_bound. lia.
    + simpl. destruct (step <? max_steps) eqn:Hguard; [lia|].
      now rewrite app_nil_r.
  - cbn [while_loop].
    destruct (step <? max_steps) eqn:Hguard.
    + destruct (apply_step_cases self c Hnear) as [Hn | (c' & Hc' & Hnear' & _)].
      * exists [], HaltNoTransition. split.
        -- apply run_break; [lia | exact Hn].
        -- rewrite Hn. simpl. now rewrite app_nil_r.
      * rewrite Hc'. cbn [bind].
        destruct (String.eqb (current_state c') (final_state self)) eqn:Hfin.
        -- exists [c'], HaltFinal. split.
           ++ apply run_final; [lia | exact Hc' | now apply String.eqb_eq].
           ++ reflexivity.
        -- destruct (IH c' (Py.append ids (describe c')) (step + 1) Hnear')
             as (cs & h & Hrun & Hres); [lia|].
           exists (c' :: cs), h. split.
           ++ apply run_next; [lia | exact Hc' | now apply String.eqb_neq | exact Hrun].
           ++ rewrite Hres. unfold Py.append. rewrite <- app_assoc. reflexivity.
    + exists [], HaltStepBound. split.
      * apply run_bound. lia.
      * now rewrite app_nil_r.
Qed.

(** [simulate] returns, and returns the renderings of the configurations
    of the run. *)
Lemma simulate_run (input_string : string) :
  exists cs h,
    run self 0 (initial_config self input_string) cs h /\
    simulate self input_string
    = Ok (map describe (initial_config self input_string :: cs), accepts h).
Proof.
  destruct (while_loop_run (Z.to_nat max_steps)
              (initial_config self input_string)
              [describe (initial_config self input_string)] 0
              (initial_near_tape self input_string))
    as (cs & h & Hrun & Hres).
  - unfold max_steps. lia.
  - exists cs, h. split; [exact Hrun|]. unfold simulate, Py.append. exact Hres.
Qed.

Lemma run_functional (step : Z) (c : config) (cs cs' : list config) (h h' : halt) :
  run self step c cs h -> run self step c cs' h' -> cs = cs' /\ h = h'.
Proof.
  intros R. revert cs' h'.
  induction R as [step c Hb | step c Hlt Hn | step c c' Hlt Hs Hf
                 | step c c' cs h Hlt Hs Hf R IH];
    intros cs' h' R'; inversion R'; subst; try lia; try congruence; auto.
  - split; [|reflexivity]. congruence.
  - match goal with
    | H1 : apply_step self c = Ok (Some c'),
      H2 : apply_step self c = Ok (Some ?d) |- _ =>
        assert (c' = d) by congruence; subst d
    end.
    match goal with
    | H : run self (step + 1) c' _ _ |- _ => destruct (IH _ _ H); now subst
    end.
Qed.

Lemma run_length (step : Z) (c : config) (cs : list config) (h : halt) :
  run self step c cs h -> step <= max_steps ->
  step + Z.of_nat (List.length cs) <= max_steps.
Proof.
  induction 1; intros; simpl List.length; lia.
Qed.

Lemma run_bound_length (step : Z) (c : config) (cs : list config) :
  run self step c cs HaltStepBound -> step <= max_steps ->
  step + Z.of_nat (List.length cs) = max_steps.
Proof.
  intros R. remember HaltStepBound as h eqn:Hh.
  induction R; intros; try discriminate; simpl List.length; try lia.
  specialize (IHR Hh). lia.
Qed.

Lemma run_break_last (step : Z) (c : config) (cs : list config) :
  run self step c cs HaltNoTransition ->
  apply_step self (last cs c) = Ok None /\
  step + Z.of_nat (List.length cs) < max_steps.
Proof.
  intros R. remember HaltNoTransition as h eqn:Hh.
  induction R as [| | |step c c' cs h Hlt Hs Hf R IH]; try discriminate.
  - simpl. split; [assumption | lia].
  - destruct (IH Hh) as [Hl Hb]. split.
    + rewrite last_cons. exact Hl.
    + simpl List.length. lia.
Qed.

Lemma run_final_last (step : Z) (c : config) (cs : list config) :
  run self step c cs HaltFinal ->
  cs <> [] /\ current_state (last cs c) = final_state self.
Proof.
  intros R. remember HaltFinal as h eqn:Hh.
  induction R as [| | |step c c' cs h Hlt Hs Hf R IH]; try discriminate.
  - split; [discriminate | assumption].
  - destruct (IH Hh) as [Hne Hl]. split; [discriminate|].
    rewrite last_cons. exact Hl.
Qed.

(** Before the run halts, no configuration it goes through is in the
    final state; when it halts for another reason than the final state,
    the last one is not either. *)
Lemma run_not_final (step : Z) (c : config) (cs : list config) (h : halt) :
  run self step c cs h ->
  Forall (fun c' => current_state c' <> final_state self)
         (if accepts h then removelast cs else cs).
Proof.
  induction 1 as [| | |step c c' cs h Hlt Hs Hf R IH]; simpl; auto.
  destruct (accepts h) eqn:Hacc.
  - destruct cs as [|d cs].
    + inversion R; subst; discriminate.
    + constructor; assumption.
  - constructor; assumption.
Qed.

Lemma run_reaches (step : Z) (c : config) (cs : list config) (h : halt) :
  run self step c cs h -> Forall (reaches self c) cs.
Proof.
  induction 1 as [| | step c c' Hlt Hs Hf |step c c' cs h Hlt Hs Hf R IH].
  - constructor.
  - constructor.
  - constructor; [|constructor].
    eapply reaches_step; [apply reaches_here | exact Hs].
  - assert (Hc : reaches self c c')
      by (eapply reaches_step; [apply reaches_here | exact Hs]).
    constructor; [exact Hc|].
    eapply Forall_impl; [|exact IH].
    intros d Hd. eapply reaches_trans; eauto.
Qed.

Lemma run_chain (step : Z) (c : config) (cs : list config) (h : halt) :
  run self step c cs h -> chain self c cs.
Proof.
  induction 1; simpl; auto.
Qed.

End Loop.

(** ** Runs that halt at once, and runs that never halt *)

Section Halting.

Variable self : t.

Lemma scanned_initial (input_string : string) :
  scanned (initial_config self input_string) = first_symbol input_string.
Proof.
  destruct input_string as [|a rest]; reflexivity.
Qed.

Lemma simulate_no_transition (input_string : string) :
  find_transition self (initial_state self) None (first_symbol input_string) = None ->
  simulate self input_string
  = Ok ([describe (initial_config self input_string)], false).
Proof.
  intros Hfind.
  set (c0 := initial_config self input_string).
  assert (Hstep : apply_step self c0 = Ok None).
  { rewrite (apply_step_eq self c0 (initial_near_tape self input_string)).
    subst c0. rewrite scanned_initial.
    change (current_state (initial_config self input_string))
      with (initial_state self).
    change (mem_cache (initial_config self input_string)) with (@None string).
    now rewrite Hfind. }
  assert (Hrun : run self 0 c0 [] HaltNoTransition).
  { apply run_break; [unfold max_steps; lia | exact Hstep]. }
  destruct (simulate_run self input_string) as (cs & h & Hrun' & Hres).
  destruct (run_functional self _ _ _ _ _ _ Hrun Hrun') as [<- <-].
  exact Hres.
Qed.

Lemma chain_reaches (c : config) (cs : list config) :
  chain self c cs -> reaches self c (last cs c).
Proof.
  revert c. induction cs as [|c' cs IH]; intros c; simpl chain.
  - intros _. apply reaches_here.
  - intros [Hs Hc]. rewrite last_cons.
    eapply reaches_trans; [|apply IH; exact Hc].
    eapply reaches_step; [apply reaches_here | exact Hs].
Qed.

(** A run all of whose configurations, short of the step bound, have a
    matching transition that leads to a non-final state stops at the bound. *)
Lemma run_never_halting (step : Z) (c : config) (cs : list config) (h : halt) :
  run self step c cs h ->
  (forall pre, chain self c pre ->
               step + Z.of_nat (List.length pre) < max_steps ->
               exists d', apply_step self (last pre c) = Ok (Some d') /\
                          current_state d' <> final_state self) ->
  h = HaltStepBound.
Proof.
  induction 1 as [step c Hb | step c Hlt Hn | step c c' Hlt Hs Hf
                 | step c c' cs h Hlt Hs Hf R IH]; intros Hlive.
  - reflexivity.
  - destruct (Hlive [] I) as (d' & Hd' & _); [simpl; lia|].
    simpl in Hd'. congruence.
  - destruct (Hlive [] I) as (d' & Hd' & Hnf); [simpl; lia|].
    simpl in Hd'. assert (d' = c') by congruence. subst d'. contradiction.
  - apply IH. intros pre Hpre Hlen.
    destruct (Hlive (c' :: pre)) as (d' & Hd' & Hnf).
    + split; assumption.
    + simpl List.length. lia.
    + rewrite last_cons in Hd'. eauto.
Qed.

End Halting.

(** The spinning machine only ever sees two configurations. *)
Lemma spin_reaches (c : config) :
  reaches spin_machine (initial_config spin_machine EmptyString) c ->
  c = mk_config [] 0 "q0" None \/ c = mk_config [None] 0 "q0" None.
Proof.
  induction 1 as [|c' c'' R IH Hs].
  - now left.
  - right. destruct IH as [-> | ->]; vm_compute in Hs; congruence.
Qed.

Lemma spin_never_halts (cs : list config) :
  chain spin_machine (initial_config spin_machine EmptyString) cs ->
  exists c',
    apply_step spin_machine (last cs (initial_config spin_machine EmptyString))
    = Ok (Some c') /\
    current_state c' <> final_state spin_machine.
Proof.
  intros Hc. exists (mk_config [None] 0 "q0" None).
  destruct (spin_reaches _ (chain_reaches spin_machine _ cs Hc)) as [-> | ->];
    split; solve [reflexivity | discriminate].
Qed.

(** ** Rendering *)

Lemma join_cells (l : list (option string)) :
  Py.join (map _symbol_to_str l) = cells l.
Proof.
  induction l as [|[s|] l IH]; [reflexivity| |];
    cbn [map]; rewrite join_cons, IH; reflexivity.
Qed.

Lemma state_part_marker (state : string) (cache : option string) :
  match cache with
  | Some c => ("[" ++ state) ++ ("," ++ c)
  | None => "[" ++ state
  end ++ "]" = marker state cache.
Proof.
  destruct cache as [c|]; unfold marker.
  - now rewrite !append_assoc.
  - now rewrite !append_assoc.
Qed.

Lemma split_at {A : Type} (l : list A) (n : nat) (d : A) :
  (n < List.length l)%nat ->
  l = (firstn n l ++ nth n l d :: skipn (S n) l)%list /\
  List.length (firstn n l) = n.
Proof.
  revert n. induction l as [|x l IH]; intros n Hn; simpl in Hn; [lia|].
  destruct n as [|n].
  - split; reflexivity.
  - destruct (IH n) as [Heq Hlen]; [lia|].
    split.
    + cbn [firstn nth skipn]. rewrite <- app_comm_cons. f_equal. exact Heq.
    + cbn [firstn List.length]. now rewrite Hlen.
Qed.

(** ** Looking up a transition *)

Section Lookup.

Lemma py_eqb_eq (a b : option string) : Py.eqb a b = true <-> a = b.
Proof.
  destruct a as [x|], b as [y|]; simpl; try (split; congruence).
  rewrite String.eqb_eq. split; congruence.
Qed.

Lemma blank_if_empty_not_empty (x : option string) :
  blank_if_empty x <> Some EmptyString.
Proof.
  destruct x as [s|]; simpl; [|discriminate].
  destruct (String.eqb s EmptyString) eqn:He; [discriminate|].
  apply String.eqb_neq in He. congruence.
Qed.

Lemma blank_if_empty_id (x : option string) :
  x <> Some EmptyString -> blank_if_empty x = x.
Proof.
  destruct x as [s|]; simpl; [|reflexivity].
  destruct (String.eqb s EmptyString) eqn:He; [|reflexivity].
  apply String.eqb_eq in He. congruence.
Qed.

Lemma blank_if_empty_idem (x : option string) :
  blank_if_empty (blank_if_empty x) = blank_if_empty x.
Proof.
  apply blank_if_empty_id, blank_if_empty_not_empty.
Qed.

Variables (state : string) (cache symbol : option string).

Lemma find_in_match (transition : Transition.t) (rest : list Transition.t) :
  code_matches transition state cache symbol ->
  find_in (transition :: rest) state cache symbol = Some transition.
Proof.
  intros (Hs & Hc & Hi). cbn [find_in].
  apply String.eqb_eq in Hs. apply py_eqb_eq in Hc, Hi.
  now rewrite Hs, Hc, Hi.
Qed.

Lemma find_in_no_match (transition : Transition.t) (rest : list Transition.t) :
  ~ code_matches transition state cache symbol ->
  find_in (transition :: rest) state cache symbol
  = find_in rest state cache symbol.
Proof.
  intros Hno. cbn [find_in].
  destruct (String.eqb (Transition.initial_state transition) state) eqn:Hs;
    [|reflexivity].
  destruct (Py.eqb (Transition.mem_cache_value transition) cache) eqn:Hc;
    [|reflexivity].
  destruct (Py.eqb (blank_if_empty (Transition.tape_input transition)) symbol)
    eqn:Hi; [|reflexivity].
  exfalso. apply Hno. unfold code_matches.
  apply String.eqb_eq in Hs. apply py_eqb_eq in Hc, Hi. auto.
Qed.

Lemma code_matches_dec (transition : Transition.t) :
  {code_matches transition state cache symbol}
  + {~ code_matches transition state cache symbol}.
Proof.
  unfold code_matches.
  destruct (string_dec (Transition.initial_state transition) state);
    [|right; tauto].
  destruct (Py.eqb (Transition.mem_cache_value transition) cache) eqn:Hc.
  - destruct (Py.eqb (blank_if_empty (Transition.tape_input transition)) symbol)
      eqn:Hi.
    + left. apply py_eqb_eq in Hc, Hi. auto.
    + right. intros (_ & _ & H). apply py_eqb_eq in H. congruence.
  - right. intros (_ & H & _). apply py_eqb_eq in H. congruence.
Qed.

(** [find_in] returns the earliest entry that passes its three tests. *)
Lemma find_in_first (l : list Transition.t) (transition : Transition.t) :
  find_in l state cache symbol = Some transition <->
  first_match (fun x => code_matches x state cache symbol) l transition.
Proof.
  induction l as [|x l IH].
  - split; [discriminate|]. intros (before & after & Heq & _).
    destruct before; discriminate.
  - destruct (code_matches_dec x) as [Hx | Hx].
    + rewrite (find_in_match x l Hx). split.
      * intros Heq. injection Heq as Heq. rewrite <- Heq.
        exists [], l. split; [reflexivity|]. split; [exact Hx|].
        intros y [].
      * intros (before & after & Heq & Hm & Hfirst).
        destruct before as [|y before].
        -- now injection Heq as ->.
        -- injection Heq as -> _. exfalso. apply (Hfirst y); [now left | exact Hx].
    + rewrite (find_in_no_match x l Hx), IH. split.
      * intros (before & after & -> & Hm & Hfirst).
        exists (x :: before), after. split; [reflexivity|]. split; [exact Hm|].
        intros y [<- | Hy]; [exact Hx | now apply Hfirst].
      * intros (before & after & Heq & Hm & Hfirst).
        destruct before as [|y before].
        -- injection Heq as -> _. contradiction.
        -- injection Heq as -> ->. exists before, after.
           split; [reflexivity|]. split; [exact Hm|].
           intros z Hz. apply Hfirst. now right.
Qed.

Lemma find_in_none (l : list Transition.t) :
  find_in l state cache symbol = None <->
  forall x, In x l -> ~ code_matches x state cache symbol.
Proof.
  induction l as [|x l IH].
  - split; [intros _ y [] | reflexivity].
  - destruct (code_matches_dec x) as [Hx | Hx].
    + rewrite (find_in_match x l Hx). split; [discriminate|].
      intros H. exfalso. apply (H x); [now left | exact Hx].
    + rewrite (find_in_no_match x l Hx), IH. split.
      * intros H y [<- | Hy]; [exact Hx | now apply H].
      * intros H y Hy. apply H. now right.
Qed.

Lemma first_match_ext {A : Type} (P Q : A -> Prop) (l : list A) (x : A) :
  (forall y, In y l -> (P y <-> Q y)) ->
  first_match P l x -> first_match Q l x.
Proof.
  intros Hext (before & after & -> & Hm & Hfirst).
  exists before, after. split; [reflexivity|]. split.
  - apply Hext; [|exact Hm]. apply in_or_app. right. now left.
  - intros y Hy Hq. apply (Hfirst y Hy). apply Hext; [|exact Hq].
    apply in_or_app. now left.
Qed.

End Lookup.

(** ** What the constructor stores *)

Lemma make_transition_normal (d : Config.delta_item) (transition : Transition.t) :
  make_transition d = Ok transition -> cache_normal transition.
Proof.
  unfold make_transition, cache_normal.
  destruct (Config.tape_input (Config.params d)); simpl; [|discriminate].
  destruct (Config.initial_state (Config.params d)); simpl; [|discriminate].
  destruct (Config.final_state (Config.output d)); simpl; [|discriminate].
  destruct (Config.tape_displacement (Config.output d)); simpl; [|discriminate].
  intros [= <-]. simpl. apply blank_if_empty_not_empty.
Qed.

Lemma make_transitions_normal (delta : list Config.delta_item) :
  forall l, make_transitions delta = Ok l -> Forall cache_normal l.
Proof.
  induction delta as [|d delta IH]; intros l; simpl.
  - intros [= <-]. constructor.
  - destruct (make_transition d) as [x| |] eqn:Hd; simpl; try discriminate.
    destruct (make_transitions delta) as [l'| |]; simpl; try discriminate.
    intros [= <-]. constructor; [now apply (make_transition_normal d) | now apply IH].
Qed.

Lemma init_normal (config : Config.t) (self : t) :
  __init__ config = Ok self -> Forall cache_normal (transitions self).
Proof.
  unfold __init__.
  destruct (make_transitions (Config.delta config)) as [l| |] eqn:Hl; simpl;
    try discriminate.
  intros [= <-]. simpl. now apply (make_transitions_normal _ _ Hl).
Qed.

(** On a stored transition, and for a cache and a symbol that are not the
    empty string, the tests of [find_transition] are blank-normalized
    equality. *)
Lemma code_matches_spec (transition : Transition.t) (state : string)
    (cache symbol : option string) :
  cache_normal transition ->
  cache <> Some EmptyString -> symbol <> Some EmptyString ->
  code_matches transition state cache symbol
  <-> spec_matches transition state cache symbol.
Proof.
  unfold cache_normal, code_matches, spec_matches. intros Hn Hc Hs.
  rewrite (blank_if_empty_id _ Hn), (blank_if_empty_id _ Hc),
    (blank_if_empty_id _ Hs).
  tauto.
Qed.

(** An empty string given as cache or symbol passes no test. *)
Lemma code_matches_empty (transition : Transition.t) (state : string)
    (cache symbol : option string) :
  cache_normal transition ->
  cache = Some EmptyString \/ symbol = Some EmptyString ->
  ~ code_matches transition state cache symbol.
Proof.
  unfold cache_normal, code_matches. intros Hn [-> | ->] (_ & Hc & Hs).
  - contradiction.
  - now apply (blank_if_empty_not_empty (Transition.tape_input transition)).
Qed.

(** ** The two encodings of blank *)

Lemma same_blank_get (a b : option (option string)) :
  same_blank a b ->
  blank_if_empty (Config.get a) = blank_if_empty (Config.get b).
Proof.
  intros [-> | [[-> ->] | [-> ->]]]; reflexivity.
Qed.

Lemma same_blank_item (key : string) (a b : option (option string)) :
  same_blank a b ->
  (x <- Config.item key a ;; Ok (blank_if_empty x))
  = (x <- Config.item key b ;; Ok (blank_if_empty x)).
Proof.
  intros [-> | [[-> ->] | [-> ->]]]; reflexivity.
Qed.

Lemma same_item_transition (d1 d2 : Config.delta_item) :
  same_item d1 d2 -> make_transition d1 = make_transition d2.
Proof.
  intros (Hs & Hci & Hti & Hf & Hco & Hto & Hd).
  unfold make_transition.
  rewrite (same_blank_get _ _ Hci), (same_blank_get _ _ Hco),
    (same_blank_get _ _ Hto), Hs, Hf, Hd.
  pose proof (same_blank_item "tape_input" _ _ Hti) as Hitem.
  destruct (Config.tape_input (Config.params d1)) as [x1|],
           (Config.tape_input (Config.params d2)) as [x2|];
    simpl in Hitem |- *; try discriminate; [|reflexivity].
  injection Hitem as ->. reflexivity.
Qed.

Lemma same_items_transitions (l1 l2 : list Config.delta_item) :
  Forall2 same_item l1 l2 -> make_transitions l1 = make_transitions l2.
Proof.
  induction 1 as [|d1 d2 l1 l2 Hd _ IH]; [reflexivity|].
  simpl. now rewrite (same_item_transition d1 d2 Hd), IH.
Qed.

Lemma same_config_init (c1 c2 : Config.t) :
  same_config c1 c2 -> __init__ c1 = __init__ c2.
Proof.
  intros (Hq & Ha & Hta & Hdelta & Hsim). unfold __init__.
  now rewrite (same_items_transitions _ _ Hdelta), Hq, Ha, Hta, Hsim.
Qed.

(** * The claims *)

(** C1. The machine with states [q0, q1], initial state [q0], final state
    [q1] and the single transition (q0, blank, a) -> (q1, blank, a, Right)
    is what the constructor builds from the corresponding configuration,
    whatever the alphabets, and on the input [a] [simulate] returns the
    trace [[q0]a], [a[q1]B] and accepts. *)
Theorem one_rule_machine_accepts_a (alphabet tape_alphabet : list string) :
  __init__ (one_rule_config alphabet tape_alphabet)
  = Ok (one_rule_machine alphabet tape_alphabet) /\
  simulate (one_rule_machine alphabet tape_alphabet) "a"
  = Ok (["[q0]a"; "a[q1]B"], true).
Proof.
  split; vm_compute; reflexivity.
Qed.

(** C2. The trace [simulate] returns has one entry more than the number of
    transitions the run applied: it is the rendering of the initial
    configuration (initial state, blank cache, the input on the tape, head
    at position 0) followed by the rendering of the configuration after
    each applied transition. *)
Theorem trace_length (self : t) (input_string : string) :
  exists (trace : list string) (accepted : bool) (cs : list config) (h : halt),
    simulate self input_string = Ok (trace, accepted) /\
    run self 0 (initial_config self input_string) cs h /\
    trace = map describe (initial_config self input_string :: cs) /\
    List.length trace = (List.length cs + 1)%nat /\
    nth_error trace 0
    = Some (_create_instant_description
              (map Some (Py.list_of_str input_string)) 0 (initial_state self) None).
Proof.
  destruct (simulate_run self input_string) as (cs & h & Hrun & Hres).
  exists (map describe (initial_config self input_string :: cs)), (accepts h), cs, h.
  repeat split; try assumption.
  rewrite length_map. simpl. lia.
Qed.

(** C3. [simulate] always returns a trace and a verdict, never raises.  The
    verdict is [true] exactly when the loop halted on the final-state test
    that follows an applied transition, that is when the last configuration
    of a run of at least one transition is in the final state; a run that
    halts because no transition matches or because the step bound is
    reached returns [false] with the trace collected so far. *)
Theorem verdict (self : t) (input_string : string) :
  exists (trace : list string) (accepted : bool) (cs : list config) (h : halt),
    simulate self input_string = Ok (trace, accepted) /\
    run self 0 (initial_config self input_string) cs h /\
    trace = map describe (initial_config self input_string :: cs) /\
    (accepted = true <-> h = HaltFinal) /\
    (accepted = true <->
     cs <> [] /\
     current_state (last cs (initial_config self input_string)) = final_state self) /\
    (h = HaltNoTransition ->
     accepted = false /\
     apply_step self (last cs (initial_config self input_string)) = Ok None) /\
    (h = HaltStepBound ->
     accepted = false /\ Z.of_nat (List.length cs) = max_steps).
Proof.
  destruct (simulate_run self input_string) as (cs & h & Hrun & Hres).
  exists (map describe (initial_config self input_string :: cs)), (accepts h), cs, h.
  split; [exact Hres|]. split; [exact Hrun|]. split; [reflexivity|].
  split; [|split; [|split]].
  - destruct h; simpl; split; intros; congruence.
  - split.
    + intros Hacc. apply (run_final_last self 0).
      destruct h; simpl in Hacc; try discriminate. exact Hrun.
    + intros [Hne Hlast].
      destruct (accepts h) eqn:Hacc; [reflexivity | exfalso].
      pose proof (run_not_final self _ _ _ _ Hrun) as Hnf.
      rewrite Hacc in Hnf. rewrite Forall_forall in Hnf.
      apply (Hnf (last cs (initial_config self input_string))); [|exact Hlast].
      destruct (exists_last Hne) as (cs' & d & ->).
      rewrite last_last. apply in_or_app. right. now left.
  - intros ->. split; [reflexivity|].
    apply (run_break_last self 0 _ _ Hrun).
  - intros ->. split; [reflexivity|].
    pose proof (run_bound_length self 0 _ _ Hrun). unfold max_steps in *. lia.
Qed.

(** C4. [simulate] always returns, after applying at most 10,000
    transitions.  On a run in which, short of the step bound, a transition
    always matches and never leads to the final state, it stops at the
    bound: exactly 10,000 transitions are applied, the verdict is [false]
    and the trace has 10,001 entries. *)
Theorem step_bound (self : t) (input_string : string) :
  (exists (trace : list string) (accepted : bool) (cs : list config) (h : halt),
      simulate self input_string = Ok (trace, accepted) /\
      run self 0 (initial_config self input_string) cs h /\
      trace = map describe (initial_config self input_string :: cs) /\
      Z.of_nat (List.length cs) <= 10000 /\
      Z.of_nat (List.length trace) <= 10001) /\
  ((forall cs : list config,
       chain self (initial_config self input_string) cs ->
       Z.of_nat (List.length cs) < 10000 ->
       exists c',
         apply_step self (last cs (initial_config self input_string))
         = Ok (Some c') /\
         current_state c' <> final_state self) ->
   exists (trace : list string) (cs : list config),
     simulate self input_string = Ok (trace, false) /\
     run self 0 (initial_config self input_string) cs HaltStepBound /\
     trace = map describe (initial_config self input_string :: cs) /\
     Z.of_nat (List.length cs) = 10000 /\
     Z.of_nat (List.length trace) = 10001).
Proof.
  destruct (simulate_run self input_string) as (cs & h & Hrun & Hres).
  split.
  - exists (map describe (initial_config self input_string :: cs)), (accepts h), cs, h.
    pose proof (run_length self 0 _ _ _ Hrun) as Hlen.
    unfold max_steps in Hlen.
    repeat split; try assumption; [lia|].
    rewrite length_map. simpl List.length. lia.
  - intros Hlive.
    assert (h = HaltStepBound) as ->.
    { apply (run_never_halting self 0 _ _ _ Hrun).
      intros pre Hpre Hlen. apply Hlive; [exact Hpre|].
      unfold max_steps in Hlen. lia. }
    exists (map describe (initial_config self input_string :: cs)), cs.
    pose proof (run_bound_length self 0 _ _ Hrun) as Hlen.
    unfold max_steps in Hlen.
    repeat split; try assumption; [lia|].
    rewrite length_map. simpl List.length. lia.
Qed.

Lemma step_bound_witness :
  exists (trace : list string) (cs : list config),
    simulate spin_machine EmptyString = Ok (trace, false) /\
    run spin_machine 0 (initial_config spin_machine EmptyString) cs HaltStepBound /\
    trace = map describe (initial_config spin_machine EmptyString :: cs) /\
    Z.of_nat (List.length cs) = 10000 /\
    Z.of_nat (List.length trace) = 10001.
Proof.
  apply (proj2 (step_bound spin_machine EmptyString)).
  intros cs Hc _. exact (spin_never_halts cs Hc).
Defined.

(** C5, as stated, fails: the machine built from [spin_config] has an
    entry on (q0, blank, blank); asked for state q0, blank cache and the
    empty string as tape symbol, which blank-normalized equality matches
    with that entry, [find_transition] returns no transition. *)
Lemma find_transition_empty_symbol :
  __init__ spin_config = Ok spin_machine /\
  find_transition spin_machine "q0" None (Some EmptyString) = None /\
  ~ ((exists transition : Transition.t,
         find_transition spin_machine "q0" None (Some EmptyString)
         = Some transition)
     <-> (exists x : Transition.t,
             In x (transitions spin_machine) /\
             spec_matches x "q0" None (Some EmptyString))).
Proof.
  split; [reflexivity|]. split; [reflexivity|].
  intros [_ H].
  destruct H as (transition & Htr); [|discriminate].
  exists (Transition.mk "q0" None None "q0" None None "S").
  split; [now left|]. repeat split.
Qed.

(** An empty string given as the cache or as the symbol is compared as it
    is: on a machine built by the constructor nothing matches it. *)
Lemma find_transition_empty_query (config : Config.t) (self : t)
    (state : string) (cache symbol : option string) :
  __init__ config = Ok self ->
  cache = Some EmptyString \/ symbol = Some EmptyString ->
  find_transition self state cache symbol = None.
Proof.
  intros Hinit Hempty.
  pose proof (init_normal config self Hinit) as Hnormal.
  rewrite Forall_forall in Hnormal.
  replace (find_transition self state cache symbol)
    with (find_in (transitions self) state cache symbol)
    by (unfold find_transition; now destruct symbol).
  apply find_in_none. intros x Hx. apply code_matches_empty; auto.
Qed.

(** C5, amended.  On a machine built by the constructor, for every state
    and for every cache value and tape symbol that are blank ([None]) or a
    non-empty string, [find_transition] returns a transition exactly when
    some table entry matches, an entry matching when its state equals the
    given one and its cache and tape operands equal the given cache and
    symbol under blank-normalized equality; the entry returned is the
    earliest match in declaration order, and the result is [None] exactly
    when no entry matches. *)
Theorem find_transition_first_match (config : Config.t) (self : t)
    (state : string) (cache symbol : option string) :
  __init__ config = Ok self ->
  cache <> Some EmptyString ->
  symbol <> Some EmptyString ->
  (forall transition : Transition.t,
      find_transition self state cache symbol = Some transition <->
      first_match (fun x => spec_matches x state cache symbol)
                  (transitions self) transition) /\
  ((exists transition, find_transition self state cache symbol = Some transition)
   <-> exists x, In x (transitions self) /\ spec_matches x state cache symbol) /\
  (find_transition self state cache symbol = None <->
   forall x, In x (transitions self) -> ~ spec_matches x state cache symbol).
Proof.
  intros Hinit Hc Hs.
  pose proof (init_normal config self Hinit) as Hnormal.
  rewrite Forall_forall in Hnormal.
  assert (Hfind : find_transition self state cache symbol
                  = find_in (transitions self) state cache symbol)
    by (unfold find_transition; now destruct symbol).
  rewrite Hfind.
  assert (Hext : forall y, In y (transitions self) ->
                   (code_matches y state cache symbol
                    <-> spec_matches y state cache symbol))
    by (intros y Hy; apply code_matches_spec; auto).
  assert (Hnone : find_in (transitions self) state cache symbol = None <->
                  forall x, In x (transitions self) ->
                            ~ spec_matches x state cache symbol).
  { rewrite find_in_none. split.
    - intros H x Hx Hm. apply (H x Hx). now apply Hext.
    - intros H x Hx Hm. apply (H x Hx). now apply Hext. }
  split; [|split].
  - intros transition. rewrite find_in_first. split.
    + apply first_match_ext. exact Hext.
    + apply first_match_ext. intros y Hy. symmetry. now apply Hext.
  - split.
    + intros (transition & Htr).
      apply find_in_first in Htr. destruct Htr as (before & after & Heq & Hm & _).
      exists transition. split.
      * rewrite Heq. apply in_or_app. right. now left.
      * apply Hext; [|exact Hm]. rewrite Heq. apply in_or_app. right. now left.
    + intros (x & Hx & Hm).
      destruct (find_in (transitions self) state cache symbol) as [tr|] eqn:Hres.
      * now exists tr.
      * exfalso. apply (proj1 Hnone eq_refl x Hx Hm).
  - exact Hnone.
Qed.

Lemma find_transition_first_match_witness :
  __init__ spin_config_empty = Ok spin_machine /\
  find_transition spin_machine "q0" None None
  = Some (Transition.mk "q0" None None "q0" None None "S").
Proof.
  split; [reflexivity|].
  apply (proj1 (find_transition_first_match spin_config_empty spin_machine
                  "q0" None None eq_refl
                  ltac:(discriminate) ltac:(discriminate))).
  exists [], []. split; [reflexivity|]. split; [|intros y []].
  repeat split.
Defined.

(** C6. Two configurations that differ only in writing a blank operand or
    result as [null] in one and as the empty string in the other build the
    same machine; so on every input both machines return the same trace
    and the same verdict. *)
Theorem blank_encodings_agree (c1 c2 : Config.t) (self1 self2 : t)
    (input_string : string) :
  same_config c1 c2 ->
  __init__ c1 = Ok self1 ->
  __init__ c2 = Ok self2 ->
  self1 = self2 /\
  exists (trace : list string) (accepted : bool),
    simulate self1 input_string = Ok (trace, accepted) /\
    simulate self2 input_string = Ok (trace, accepted).
Proof.
  intros Hsame H1 H2.
  rewrite (same_config_init c1 c2 Hsame) in H1.
  assert (self1 = self2) by congruence. subst self2.
  split; [reflexivity|].
  destruct (simulate_run self1 input_string) as (cs & h & _ & Hres).
  eauto.
Qed.

Lemma blank_encodings_agree_witness :
  same_config spin_config spin_config_empty /\
  __init__ spin_config = Ok spin_machine /\
  __init__ spin_config_empty = Ok spin_machine /\
  exists (trace : list string) (accepted : bool),
    simulate spin_machine "a" = Ok (trace, accepted) /\
    simulate spin_machine "a" = Ok (trace, accepted).
Proof.
  assert (Hsame : same_config spin_config spin_config_empty).
  { unfold same_config, spin_config, spin_config_empty; simpl.
    repeat split.
    constructor; [|constructor].
    unfold same_item, same_blank; simpl.
    repeat split; auto. }
  split; [exact Hsame|]. split; [reflexivity|]. split; [reflexivity|].
  exact (proj2 (blank_encodings_agree spin_config spin_config_empty
                  spin_machine spin_machine "a" Hsame eq_refl eq_refl)).
Defined.

(** C7. On a non-empty input whose first symbol, with the initial state and
    a blank cache, matches no transition, [simulate] returns the one-entry
    trace made of the initial snapshot, and rejects. *)
Theorem no_transition_on_first_symbol (self : t) (a : ascii) (rest : string) :
  find_transition self (initial_state self) None (Some (String a EmptyString)) = None ->
  simulate self (String a rest)
  = Ok ([_create_instant_description
           (map Some (Py.list_of_str (String a rest))) 0 (initial_state self) None],
        false).
Proof.
  intros Hfind. now apply simulate_no_transition.
Qed.

Lemma no_transition_on_first_symbol_witness :
  find_transition (one_rule_machine ["a"] ["a"]) "q0" None (Some "b") = None /\
  simulate (one_rule_machine ["a"] ["a"]) "ba" = Ok (["[q0]ba"], false).
Proof.
  split; [reflexivity|].
  apply (no_transition_on_first_symbol (one_rule_machine ["a"] ["a"]) "b" "a").
  reflexivity.
Defined.

(** C8. The renderer returns the tape content left of the head, the marker
    ([[state]] when the cache is blank, [[state,cache]] otherwise), the
    symbol under the head and the tape content right of the head, each
    blank cell written [B].  With the head left of the tape it returns the
    marker, one [B] and the whole tape; with the head right of the tape,
    the whole tape, the marker and one [B]. *)
Theorem instant_description_format (tape0 : list (option string))
    (position : Z) (state : string) (cache : option string) :
  (position < 0 ->
   _create_instant_description tape0 position state cache
   = marker state cache ++ "B" ++ cells tape0) /\
  (Py.len tape0 <= position ->
   _create_instant_description tape0 position state cache
   = cells tape0 ++ marker state cache ++ "B") /\
  (0 <= position < Py.len tape0 ->
   exists (left : list (option string)) (current : option string)
          (right : list (option string)),
     tape0 = (left ++ current :: right)%list /\
     Py.len left = position /\
     _create_instant_description tape0 position state cache
     = cells left ++ marker state cache ++ cells [current] ++ cells right).
Proof.
  unfold _create_instant_description.
  rewrite state_part_marker, !join_cells.
  split; [|split].
  - intros H. destruct (position <? 0) eqn:Hneg; [reflexivity | lia].
  - intros H. pose proof (len_nonneg tape0).
    destruct (position <? 0) eqn:Hneg; [lia|].
    destruct (position >=? Py.len tape0) eqn:Hhigh; [reflexivity | lia].
  - intros H.
    destruct (position <? 0) eqn:Hneg; [lia|].
    destruct (position >=? Py.len tape0) eqn:Hhigh; [lia|].
    assert (Hn : (Z.to_nat position < List.length tape0)%nat)
      by (unfold Py.len in H; lia).
    destruct (split_at tape0 (Z.to_nat position) None Hn) as [Heq Hlen].
    exists (firstn (Z.to_nat position) tape0),
           (nth (Z.to_nat position) tape0 None),
           (skipn (S (Z.to_nat position)) tape0).
    split; [exact Heq|]. split; [unfold Py.len; lia|].
    unfold Py.slice_to, Py.slice_from, Py.bound.
    rewrite Hneg.
    destruct (position + 1 <? 0) eqn:Hneg1; [lia|].
    replace (Z.to_nat (position + 1)) with (S (Z.to_nat position)) by lia.
    f_equal. f_equal.
    destruct (nth (Z.to_nat position) tape0 None) as [s|]; simpl;
      [now rewrite append_empty_r | reflexivity].
Qed.

(** C9. In every configuration a run can reach, extending the tape puts the
    head on a real cell, so the read and the write that follow succeed; an
    extension adds one blank cell in front of the tape or one behind it and
    leaves the existing cells as they are, in the same order; and from then
    on the tape never has fewer cells, whatever is written. *)
Theorem tape_growth (self : t) (input_string : string) (c : config) :
  reaches self (initial_config self input_string) c ->
  let tape1 := fst (extend (tape c) (tape_position c)) in
  let position1 := snd (extend (tape c) (tape_position c)) in
  (0 <= position1 < Py.len tape1 /\
   (exists s, Py.getitem tape1 position1 = Ok s) /\
   (forall v, exists tape2,
        Py.setitem tape1 position1 v = Ok tape2 /\
        List.length tape2 = List.length tape1)) /\
  (exists before after : list (option string),
      tape1 = (before ++ tape c ++ after)%list /\
      all_blank before /\ all_blank after /\
      position1 = tape_position c + Py.len before /\
      (tape_position c < 0 -> before = [None] /\ after = []) /\
      (Py.len (tape c) <= tape_position c -> before = [] /\ after = [None]) /\
      (0 <= tape_position c < Py.len (tape c) -> before = [] /\ after = [])) /\
  (forall c', reaches self c c' ->
              (List.length (tape c) <= List.length (tape c'))%nat).
Proof.
  intros R.
  pose proof (reaches_near_tape self _ _ (initial_near_tape self input_string) R)
    as Hnear.
  pose proof (extend_in_range c Hnear) as Hin.
  cbv zeta. split; [|split].
  - split; [exact Hin|]. split.
    + eexists. apply (getitem_in_range _ _ None Hin).
    + intros v. eexists. split.
      * apply (setitem_in_range _ _ v Hin).
      * apply update_length.
  - unfold head_near_tape in Hnear.
    pose proof (len_nonneg (tape c)) as Hlen.
    unfold extend, Py.insert0, Py.append.
    destruct (tape_position c <? 0) eqn:Hneg.
    + exists [None], []. cbn [fst snd]. rewrite app_nil_r.
      split; [reflexivity|]. split; [repeat constructor|].
      split; [constructor|]. split; [unfold Py.len; simpl; lia|].
      split; [intros _; split; reflexivity|].
      split; intros; exfalso; lia.
    + destruct (tape_position c >=? Py.len (tape c)) eqn:Hhigh.
      * exists [], [None]. cbn [fst snd].
        split; [reflexivity|]. split; [constructor|].
        split; [repeat constructor|]. split; [unfold Py.len; simpl; lia|].
        split; [intros; exfalso; lia|].
        split; [intros _; split; reflexivity | intros; exfalso; lia].
      * exists [], []. cbn [fst snd]. rewrite app_nil_r.
        split; [reflexivity|]. split; [constructor|].
        split; [constructor|]. split; [unfold Py.len; simpl; lia|].
        split; [intros; exfalso; lia|].
        split; [intros; exfalso; lia | intros _; split; reflexivity].
  - intros c' R'. now apply (reaches_length self c c' Hnear).
Qed.

Lemma tape_growth_witness :
  reaches spin_machine (initial_config spin_machine EmptyString)
          (mk_config [None] 0 "q0" None) /\
  forall c', reaches spin_machine (mk_config [None] 0 "q0" None) c' ->
             (1 <= List.length (tape c'))%nat.
Proof.
  assert (R : reaches spin_machine (initial_config spin_machine EmptyString)
                      (mk_config [None] 0 "q0" None)).
  { eapply reaches_step; [apply reaches_here | reflexivity]. }
  split; [exact R|].
  exact (proj2 (proj2 (tape_growth spin_machine EmptyString _ R))).
Defined.

(** C10. The final-state test is made only after a transition has been
    applied.  So a machine whose initial state is its final state still
    rejects, with the one-entry trace, an input whose initial configuration
    matches no transition; and every accepting run has applied at least one
    transition, the last of which led to the final state. *)
Theorem acceptance_needs_a_transition (self : t) (input_string : string) :
  (initial_state self = final_state self ->
   find_transition self (initial_state self) None (first_symbol input_string) = None ->
   simulate self input_string
   = Ok ([describe (initial_config self input_string)], false)) /\
  (forall trace : list string,
     simulate self input_string = Ok (trace, true) ->
     exists (cs : list config) (c : config),
       chain self (initial_config self input_string) (cs ++ [c])%list /\
       current_state c = final_state self /\
       trace = map describe (initial_config self input_string :: cs ++ [c])%list).
Proof.
  split.
  - intros _ Hfind. now apply simulate_no_transition.
  - intros trace Hsim.
    destruct (simulate_run self input_string) as (cs & h & Hrun & Hres).
    rewrite Hres in Hsim. injection Hsim as Htrace Hacc.
    destruct h; try discriminate.
    destruct (run_final_last self 0 _ _ Hrun) as [Hne Hlast].
    destruct (exists_last Hne) as (cs' & c & ->).
    exists cs', c. rewrite last_last in Hlast.
    split; [exact (run_chain self 0 _ _ _ Hrun)|].
    split; [exact Hlast | now symmetry].
Qed.

Lemma acceptance_needs_a_transition_witness :
  initial_state idle_machine = final_state idle_machine /\
  find_transition idle_machine "q0" None (Some "a") = None /\
  simulate idle_machine "a" = Ok (["[q0]a"], false).
Proof.
  split; [reflexivity|]. split; [reflexivity|].
  apply (proj1 (acceptance_needs_a_transition idle_machine "a"));
    reflexivity.
Defined.

(** * Further properties of the simulator *)

(** ** What one iteration does to the tape *)

Lemma apply_step_after (self : t) (c c' : config) :
  head_near_tape c ->
  apply_step self c = Ok (Some c') ->
  exists transition : Transition.t,
    find_transition self (current_state c) (mem_cache c) (scanned c)
    = Some transition /\
    c' = after c transition.
Proof.
  intros Hnear Hstep. rewrite (apply_step_eq self c Hnear) in Hstep.
  destruct (find_transition self (current_state c) (mem_cache c) (scanned c))
    as [tr|]; simpl in Hstep; [|discriminate].
  exists tr. split; [reflexivity | congruence].
Qed.

Lemma nth_error_update {A : Type} (l : list A) (j i : nat) (v : A) :
  (j < List.length l)%nat ->
  nth_error (Py.update l j v) i = if Nat.eqb i j then Some v else nth_error l i.
Proof.
  revert j i. induction l as [|x l IH]; intros j i Hj; simpl in Hj; [lia|].
  destruct j as [|j], i as [|i]; simpl; try reflexivity.
  apply IH. lia.
Qed.

Lemma extend_length_le (tape0 : list (option string)) (p : Z) :
  (List.length (fst (extend tape0 p)) <= List.length tape0 + 1)%nat.
Proof.
  unfold extend, Py.insert0, Py.append.
  destruct (p <? 0); simpl; [lia|].
  destruct (p >=? Py.len tape0); simpl; [rewrite length_app; simpl|]; lia.
Qed.

Lemma length_list_of_str (s : string) :
  List.length (Py.list_of_str s) = String.length s.
Proof.
  induction s as [|a s IH]; simpl; [reflexivity | now rewrite IH].
Qed.

Lemma chain_length_le (self : t) (cs : list config) :
  forall c, head_near_tape c -> chain self c cs ->
    (List.length (tape (last cs c)) <= List.length (tape c) + List.length cs)%nat.
Proof.
  induction cs as [|c' cs IH]; intros c Hnear Hc; simpl chain in Hc.
  - simpl. lia.
  - destruct Hc as [Hs Hc]. rewrite last_cons.
    destruct (apply_step_after self c c' Hnear Hs) as (tr & _ & ->).
    pose proof (after_near_tape c tr Hnear) as Hnear'.
    specialize (IH _ Hnear' Hc).
    assert (Hone : (List.length (tape (after c tr)) <= List.length (tape c) + 1)%nat).
    { unfold after; simpl. rewrite update_length. apply extend_length_le. }
    simpl List.length. lia.
Qed.

Lemma chain_prefix (self : t) (cs : list config) :
  forall c d, chain self c cs -> In d cs ->
    exists pre, chain self c pre /\ last pre c = d /\
                (List.length pre <= List.length cs)%nat.
Proof.
  induction cs as [|c' cs IH]; intros c d Hc Hin; [contradiction|].
  destruct Hc as [Hs Hc]. destruct Hin as [<- | Hin].
  - exists [c']. simpl. repeat split; auto. lia.
  - destruct (IH c' d Hc Hin) as (pre & Hpre & Hlast & Hlen).
    exists (c' :: pre). split; [split; assumption|].
    split; [now rewrite last_cons|]. simpl. lia.
Qed.

(** X1. In every configuration a run reaches the head is on the
    materialized tape or exactly one cell off either end. *)
Theorem head_stays_near_tape (self : t) (input_string : string) (c : config) :
  reaches self (initial_config self input_string) c ->
  -1 <= tape_position c <= Py.len (tape c).
Proof.
  intros R.
  exact (reaches_near_tape self _ _ (initial_near_tape self input_string) R).
Qed.

Lemma head_stays_near_tape_witness :
  reaches writer_machine (initial_config writer_machine "a")
          (mk_config [Some "b"] 1 "q0" None) /\
  -1 <= 1 <= Py.len [Some "b"].
Proof.
  assert (R : reaches writer_machine (initial_config writer_machine "a")
                      (mk_config [Some "b"] 1 "q0" None)).
  { eapply reaches_step; [apply reaches_here | reflexivity]. }
  split; [exact R|].
  exact (head_stays_near_tape writer_machine "a" _ R).
Defined.

(** X2. Each applied transition adds at most one cell: after [k]
    transitions the tape has at most [len(input) + k] cells, and no tape of
    a run of [simulate] has more than [len(input) + 10000]. *)
Theorem tape_length_bound (self : t) (input_string : string) :
  (forall cs : list config,
      chain self (initial_config self input_string) cs ->
      (List.length (tape (last cs (initial_config self input_string)))
       <= String.length input_string + List.length cs)%nat) /\
  (forall (cs : list config) (h : halt) (c : config),
      run self 0 (initial_config self input_string) cs h ->
      In c cs ->
      Z.of_nat (List.length (tape c))
      <= Z.of_nat (String.length input_string) + 10000).
Proof.
  assert (Hchain : forall cs : list config,
             chain self (initial_config self input_string) cs ->
             (List.length (tape (last cs (initial_config self input_string)))
              <= String.length input_string + List.length cs)%nat).
  { intros cs Hc.
    pose proof (chain_length_le self cs _
                  (initial_near_tape self input_string) Hc) as H.
    unfold initial_config in H at 2. simpl tape in H.
    rewrite length_map, length_list_of_str in H. exact H. }
  split; [exact Hchain|].
  intros cs h c Hrun Hin.
  destruct (chain_prefix self cs _ c (run_chain self 0 _ _ _ Hrun) Hin)
    as (pre & Hpre & Hlast & Hlen).
  pose proof (Hchain pre Hpre) as Hb. rewrite Hlast in Hb.
  pose proof (run_length self 0 _ _ _ Hrun) as Hmax.
  unfold max_steps in Hmax. lia.
Qed.

Lemma tape_length_bound_witness :
  chain writer_machine (initial_config writer_machine "a")
        [mk_config [Some "b"] 1 "q0" None] /\
  (1 <= 1 + 1)%nat.
Proof.
  assert (Hc : chain writer_machine (initial_config writer_machine "a")
                     [mk_config [Some "b"] 1 "q0" None]).
  { split; [reflexivity | exact I]. }
  split; [exact Hc|].
  exact (proj1 (tape_length_bound writer_machine "a") _ Hc).
Defined.

(** X3. An applied transition rewrites the cell under the head, after the
    extension, and no other: that cell receives the transition's output,
    every other cell is unchanged, the head moves by at most one cell, and
    state and cache become those of the transition, which is the one
    [find_transition] returns for the state, the cache and the symbol read. *)
Theorem step_writes_one_cell (self : t) (input_string : string) (c c' : config) :
  reaches self (initial_config self input_string) c ->
  apply_step self c = Ok (Some c') ->
  exists transition : Transition.t,
    find_transition self (current_state c) (mem_cache c) (scanned c)
    = Some transition /\
    let tape1 := fst (extend (tape c) (tape_position c)) in
    let position1 := snd (extend (tape c) (tape_position c)) in
    List.length (tape c') = List.length tape1 /\
    nth_error (tape c') (Z.to_nat position1)
    = Some (Transition.tape_output transition) /\
    (forall i : nat, i <> Z.to_nat position1 ->
                     nth_error (tape c') i = nth_error tape1 i) /\
    position1 - 1 <= tape_position c' <= position1 + 1 /\
    current_state c' = Transition.final_state transition /\
    mem_cache c' = Transition.new_mem_cache_value transition.
Proof.
  intros R Hstep.
  pose proof (reaches_near_tape self _ _ (initial_near_tape self input_string) R)
    as Hnear.
  destruct (apply_step_after self c c' Hnear Hstep) as (tr & Hfind & ->).
  exists tr. split; [exact Hfind|]. cbv zeta.
  pose proof (extend_in_range c Hnear) as Hin.
  assert (Hj : (Z.to_nat (snd (extend (tape c) (tape_position c)))
                < List.length (fst (extend (tape c) (tape_position c))))%nat)
    by (unfold Py.len in Hin; lia).
  unfold after; simpl.
  split; [apply update_length|].
  split; [rewrite (nth_error_update _ _ _ _ Hj), Nat.eqb_refl; reflexivity|].
  split.
  - intros i Hi. rewrite (nth_error_update _ _ _ _ Hj).
    destruct (Nat.eqb i _) eqn:He; [|reflexivity].
    apply Nat.eqb_eq in He. contradiction.
  - split; [apply move_near|]. split; reflexivity.
Qed.

Lemma step_writes_one_cell_witness :
  exists transition : Transition.t,
    find_transition writer_machine "q0" None (Some "a") = Some transition /\
    Transition.tape_output transition = Some "b".
Proof.
  destruct (step_writes_one_cell writer_machine "a"
              (initial_config writer_machine "a")
              (mk_config [Some "b"] 1 "q0" None)
              (reaches_here _ _) eq_refl)
    as (tr & Hfind & _ & Hcell & _).
  exists tr. split; [exact Hfind|].
  simpl in Hcell. congruence.
Defined.

(** ** What [simulate] depends on *)

Lemma while_loop_ext (m1 m2 : t) :
  final_state m1 = final_state m2 ->
  (forall c, apply_step m1 c = apply_step m2 c) ->
  forall (fuel : nat) (c : config) (ids : list string) (step : Z),
    while_loop fuel m1 c ids step = while_loop fuel m2 c ids step.
Proof.
  intros Hfinal Hstep.
  induction fuel as [|fuel IH]; intros c ids step; cbn [while_loop].
  - reflexivity.
  - destruct (step <? max_steps); [|reflexivity].
    rewrite Hstep.
    destruct (apply_step m2 c) as [[c'|]| |]; cbn [bind]; try reflexivity.
    rewrite Hfinal.
    destruct (String.eqb (current_state c') (final_state m2)); [reflexivity|].
    apply IH.
Qed.

(** X4. [simulate] consults the initial state, the final state and the
    transition table only: machines that agree on these return the same
    result on every input, whatever their state list, alphabet and tape
    alphabet; no symbol and no state is checked against them. *)
Theorem simulate_ignores_alphabets (m1 m2 : t) (input_string : string) :
  same_program m1 m2 ->
  simulate m1 input_string = simulate m2 input_string.
Proof.
  intros (Hinit & Hfinal & Htable).
  unfold simulate, initial_config. rewrite Hinit.
  apply while_loop_ext; [exact Hfinal|].
  intros c. unfold apply_step, find_transition. now rewrite Htable.
Qed.

Lemma simulate_ignores_alphabets_witness :
  same_program (one_rule_machine ["a"] ["a"]) (one_rule_machine [] []) /\
  simulate (one_rule_machine ["a"] ["a"]) "zz"
  = simulate (one_rule_machine [] []) "zz".
Proof.
  assert (H : same_program (one_rule_machine ["a"] ["a"]) (one_rule_machine [] []))
    by (repeat split).
  split; [exact H|].
  exact (simulate_ignores_alphabets _ _ "zz" H).
Defined.




(** ** Where runs stop *)

(** X6. Of the configurations a run goes through after a transition, only
    the last can be in the final state, and it is when the run accepts: a
    run never applies a transition to a configuration it has entered in
    the final state. *)
Theorem final_state_ends_run (self : t) (input_string : string) :
  exists (cs : list config) (h : halt),
    run self 0 (initial_config self input_string) cs h /\
    simulate self input_string
    = Ok (map describe (initial_config self input_string :: cs), accepts h) /\
    Forall (fun c => current_state c <> final_state self) (removelast cs) /\
    (accepts h = false ->
     Forall (fun c => current_state c <> final_state self) cs).
Proof.
  destruct (simulate_run self input_string) as (cs & h & Hrun & Hres).
  exists cs, h. split; [exact Hrun|]. split; [exact Hres|].
  pose proof (run_not_final self _ _ _ _ Hrun) as Hnf.
  destruct (accepts h) eqn:Hacc.
  - split; [exact Hnf | discriminate].
  - split; [|intros _; exact Hnf].
    rewrite Forall_forall in *. intros c Hc. apply Hnf.
    destruct cs as [|d cs]; [contradiction|].
    rewrite (app_removelast_last d (l := d :: cs)) by discriminate.
    apply in_or_app. now left.
Qed.

(** X7. When the transition found for the first input symbol leads to the
    final state, [simulate] accepts after that one transition, whatever
    follows the first symbol: the rest of the input is never read. *)
Theorem accepts_without_reading_rest (self : t) (a : ascii) (rest : string)
    (transition : Transition.t) :
  find_transition self (initial_state self) None (Some (String a EmptyString))
  = Some transition ->
  Transition.final_state transition = final_state self ->
  simulate self (String a rest)
  = Ok ([describe (initial_config self (String a rest));
         describe (after (initial_config self (String a rest)) transition)],
        true).
Proof.
  intros Hfind Hfinal.
  set (c0 := initial_config self (String a rest)).
  assert (Hstep : apply_step self c0 = Ok (Some (after c0 transition))).
  { rewrite (apply_step_eq self c0 (initial_near_tape self (String a rest))).
    subst c0. rewrite scanned_initial.
    change (current_state (initial_config self (String a rest)))
      with (initial_state self).
    change (mem_cache (initial_config self (String a rest))) with (@None string).
    cbn [first_symbol]. now rewrite Hfind. }
  assert (Hrun : run self 0 c0 [after c0 transition] HaltFinal).
  { apply run_final; [unfold max_steps; lia | exact Hstep | exact Hfinal]. }
  destruct (simulate_run self (String a rest)) as (cs & h & Hrun' & Hres).
  destruct (run_functional self _ _ _ _ _ _ Hrun Hrun') as [<- <-].
  exact Hres.
Qed.

Lemma accepts_without_reading_rest_witness :
  simulate (one_rule_machine ["a"] ["a"]) "abc"
  = Ok (["[q0]abc"; "a[q1]bc"], true).
Proof.
  exact (accepts_without_reading_rest (one_rule_machine ["a"] ["a"]) "a" "bc"
           (Transition.mk "q0" None (Some "a") "q1" None (Some "a") "R")
           eq_refl eq_refl).
Defined.

(** ** What the descriptions show *)

Lemma cells_input (s : string) : cells (map Some (Py.list_of_str s)) = s.
Proof.
  induction s as [|a s IH]; [reflexivity|].
  cbn [Py.list_of_str map cells]. now rewrite IH.
Qed.

Lemma description_at_first_cell (x : option string) (l : list (option string))
    (state : string) (cache : option string) :
  _create_instant_description (x :: l) 0 state cache
  = marker state cache ++ _symbol_to_str x ++ cells l.
Proof.
  unfold _create_instant_description.
  rewrite state_part_marker, !join_cells.
  change (0 <? 0) with false. cbv iota.
  destruct (0 >=? Py.len (x :: l)) eqn:Hhigh.
  - exfalso. apply Z.geb_le in Hhigh.
    unfold Py.len in Hhigh. cbn [List.length] in Hhigh. lia.
  - reflexivity.
Qed.

(** X8. The first entry of every trace is the marker of the initial state
    followed by the input string itself, or by [B] when the input is
    empty. *)
Theorem first_entry_shows_input (self : t) (input_string : string) :
  exists (rest : list string) (accepted : bool),
    simulate self input_string
    = Ok ((("[" ++ initial_state self ++ "]")
           ++ match input_string with
              | EmptyString => "B"
              | String _ _ => input_string
              end) :: rest,
          accepted).
Proof.
  destruct (simulate_run self input_string) as (cs & h & _ & Hres).
  exists (map describe cs), (accepts h). rewrite Hres. cbn [map].
  f_equal. f_equal. f_equal.
  unfold describe, initial_config.
  cbn [tape tape_position current_state mem_cache].
  destruct input_string as [|a s].
  - cbn. now rewrite append_assoc.
  - cbn [Py.list_of_str map]. rewrite description_at_first_cell.
    cbn [_symbol_to_str marker]. rewrite cells_input.
    cbn [String.append]. now rewrite !append_assoc.
Qed.

(** X9. With the head within one cell of the tape, the description taken
    before the extension is the description taken after it: the [B] drawn
    next to the marker of an off-tape head is the cell the next iteration
    materializes. *)
Theorem description_unchanged_by_extend (tape0 : list (option string))
    (position : Z) (state : string) (cache : option string) :
  -1 <= position <= Py.len tape0 ->
  _create_instant_description (fst (extend tape0 position))
                              (snd (extend tape0 position)) state cache
  = _create_instant_description tape0 position state cache.
Proof.
  intros H. pose proof (len_nonneg tape0) as Hlen.
  unfold extend, Py.insert0, Py.append.
  destruct (position <? 0) eqn:Hneg.
  - cbn [fst snd]. unfold _create_instant_description.
    rewrite Hneg, state_part_marker, !join_cells.
    change (0 <? 0) with false. cbv iota.
    destruct (0 >=? Py.len (None :: tape0)) eqn:Hhigh;
      [exfalso; apply Z.geb_le in Hhigh; unfold Py.len in Hhigh;
       cbn [List.length] in Hhigh; lia|].
    unfold Py.slice_to, Py.slice_from, Py.bound.
    change (0 <? 0) with false. change (0 + 1 <? 0) with false. cbv iota.
    change (Z.to_nat 0) with 0%nat. change (Z.to_nat (0 + 1)) with 1%nat.
    reflexivity.
  - destruct (position >=? Py.len tape0) eqn:Hhigh; [|reflexivity].
    cbn [fst snd]. unfold _create_instant_description.
    rewrite Hneg, Hhigh, state_part_marker, !join_cells.
    assert (Hpos : position = Py.len tape0) by lia.
    destruct (position >=? Py.len (tape0 ++ [None])%list) eqn:Hhigh';
      [exfalso; apply Z.geb_le in Hhigh'; unfold Py.len in Hhigh', Hpos;
       rewrite length_app in Hhigh'; change (List.length [@None string]) with 1%nat in Hhigh';
       lia|].
    unfold Py.slice_to, Py.slice_from, Py.bound. rewrite Hneg.
    destruct (position + 1 <? 0) eqn:Hneg1; [exfalso; lia|].
    assert (Hn : Z.to_nat position = List.length tape0)
      by (unfold Py.len in Hpos; lia).
    replace (Z.to_nat (position + 1)) with (S (List.length tape0)) by lia.
    rewrite Hn, firstn_app, Nat.sub_diag, firstn_all, app_nil_r.
    rewrite app_nth2, Nat.sub_diag by lia.
    rewrite skipn_all2 by (rewrite length_app; simpl; lia).
    cbn [nth _symbol_to_str cells]. now rewrite append_empty_r.
Qed.

Lemma description_unchanged_by_extend_witness :
  -1 <= -1 <= Py.len [Some "a"] /\
  _create_instant_description [None; Some "a"] 0 "q0" None
  = _create_instant_description [Some "a"] (-1) "q0" None.
Proof.
  split; [unfold Py.len; simpl; lia|].
  apply (description_unchanged_by_extend [Some "a"] (-1) "q0" None).
  unfold Py.len; simpl; lia.
Defined.

Lemma symbol_blank_as_letter (symbol : option string) :
  _symbol_to_str (blank_as_letter symbol) = _symbol_to_str symbol.
Proof. now destruct symbol. Qed.

Lemma cells_blank_as_letter (l : list (option string)) :
  cells (map blank_as_letter l) = cells l.
Proof.
  induction l as [|[s|] l IH]; cbn [map blank_as_letter cells];
    [reflexivity | now rewrite IH | now rewrite IH].
Qed.

(** X10. A description does not tell a blank cell from a cell that holds
    the letter [B]: writing [B] in every blank cell of the tape leaves the
    description as it is, wherever the head is. *)
Theorem description_hides_blank (tape0 : list (option string)) (position : Z)
    (state : string) (cache : option string) :
  _create_instant_description (map blank_as_letter tape0) position state cache
  = _create_instant_description tape0 position state cache.
Proof.
  unfold _create_instant_description, Py.slice_to, Py.slice_from, Py.bound,
    Py.len.
  rewrite !join_cells, length_map, cells_blank_as_letter.
  rewrite firstn_map, skipn_map, !cells_blank_as_letter.
  destruct (position <? 0) eqn:Hneg; [reflexivity|].
  destruct (position >=? Z.of_nat (List.length tape0)) eqn:Hhigh; [reflexivity|].
  f_equal. f_equal. f_equal.
  assert (Hn : (Z.to_nat position < List.length tape0)%nat) by lia.
  rewrite (nth_indep _ None (blank_as_letter None))
    by (rewrite length_map; exact Hn).
  rewrite map_nth. apply symbol_blank_as_letter.
Qed.

(** ** Runs of a machine built by the constructor *)

Lemma make_transition_output_normal (d : Config.delta_item) (x : Transition.t) :
  make_transition d = Ok x -> output_normal x.
Proof.
  unfold make_transition, output_normal.
  destruct (Config.tape_input (Config.params d)); simpl; [|discriminate].
  destruct (Config.initial_state (Config.params d)); simpl; [|discriminate].
  destruct (Config.final_state (Config.output d)); simpl; [|discriminate].
  destruct (Config.tape_displacement (Config.output d)); simpl; [|discriminate].
  intros [= <-]. simpl. split; apply blank_if_empty_not_empty.
Qed.

Lemma make_transitions_output_normal (delta : list Config.delta_item) :
  forall l, make_transitions delta = Ok l -> Forall output_normal l.
Proof.
  induction delta as [|d delta IH]; intros l; simpl.
  - intros [= <-]. constructor.
  - destruct (make_transition d) as [x| |] eqn:Hd; simpl; try discriminate.
    destruct (make_transitions delta) as [l'| |]; simpl; try discriminate.
    intros [= <-].
    constructor; [now apply (make_transition_output_normal d) | now apply IH].
Qed.

Lemma init_output_normal (config : Config.t) (self : t) :
  __init__ config = Ok self -> Forall output_normal (transitions self).
Proof.
  unfold __init__.
  destruct (make_transitions (Config.delta config)) as [l| |] eqn:Hl; simpl;
    try discriminate.
  intros [= <-]. simpl. now apply (make_transitions_output_normal _ _ Hl).
Qed.

Lemma find_transition_find_in (self : t) (state : string)
    (cache symbol : option string) :
  find_transition self state cache symbol
  = find_in (transitions self) state cache symbol.
Proof. unfold find_transition. now destruct symbol. Qed.

Lemma find_transition_in (self : t) (state : string)
    (cache symbol : option string) (x : Transition.t) :
  find_transition self state cache symbol = Some x -> In x (transitions self).
Proof.
  rewrite find_transition_find_in, find_in_first.
  intros (before & after0 & -> & _). apply in_or_app. right. now left.
Qed.

Lemma Forall_update {A : Type} (P : A -> Prop) (l : list A) (j : nat) (v : A) :
  Forall P l -> P v -> Forall P (Py.update l j v).
Proof.
  intros Hl Hv. revert j.
  induction Hl as [|x l Hx Hl IH]; intros j; [destruct j; constructor|].
  destruct j as [|j]; simpl; constructor; auto.
Qed.

Lemma Forall_extend (P : option string -> Prop) (l : list (option string))
    (p : Z) :
  P None -> Forall P l -> Forall P (fst (extend l p)).
Proof.
  intros Hn Hl. unfold extend, Py.insert0, Py.append.
  destruct (p <? 0); simpl; [now constructor|].
  destruct (p >=? Py.len l); simpl; [|exact Hl].
  apply Forall_app. split; [exact Hl | now constructor].
Qed.

Lemma initial_no_empty_string (self : t) (input_string : string) :
  no_empty_string (initial_config self input_string).
Proof.
  split; [discriminate|]. simpl.
  induction input_string as [|a s IH]; simpl; constructor; [discriminate | exact IH].
Qed.

Lemma after_no_empty_string (c : config) (x : Transition.t) :
  no_empty_string c -> output_normal x -> no_empty_string (after c x).
Proof.
  intros [_ Htape] [Hcache Hout]. split; [exact Hcache|].
  unfold after; simpl. apply Forall_update; [|exact Hout].
  apply Forall_extend; [discriminate | exact Htape].
Qed.

Lemma scanned_no_empty_string (c : config) :
  no_empty_string c -> scanned c <> Some EmptyString.
Proof.
  intros [_ Htape]. unfold scanned.
  pose proof (Forall_extend (fun s => s <> Some EmptyString) (tape c)
                (tape_position c) ltac:(discriminate) Htape) as Hext.
  rewrite Forall_forall in Hext.
  destruct (nth_in_or_default
              (Z.to_nat (snd (extend (tape c) (tape_position c))))
              (fst (extend (tape c) (tape_position c))) None) as [Hin | ->];
    [now apply Hext | discriminate].
Qed.

Lemma reaches_no_empty_string (self : t) (c c' : config) :
  Forall output_normal (transitions self) ->
  head_near_tape c -> no_empty_string c ->
  reaches self c c' -> no_empty_string c'.
Proof.
  intros Hout Hnear Hclean R. induction R as [|d d' R IH Hs]; [exact Hclean|].
  pose proof (reaches_near_tape self _ _ Hnear R) as Hnear'.
  destruct (apply_step_after self d d' Hnear' Hs) as (x & Hfind & ->).
  apply after_no_empty_string; [exact IH|].
  rewrite Forall_forall in Hout. apply Hout.
  now apply (find_transition_in self _ _ _ x Hfind).
Qed.

(** X11. On a machine built by the constructor no run ever holds the empty
    string, in a tape cell or in the cache: every lookup [simulate] makes
    is for a cache and a symbol that are blank or a non-empty string, and
    it returns the earliest table entry equal to them under
    blank-normalized equality. *)
Theorem run_lookups_are_normalized (cfg : Config.t) (self : t)
    (input_string : string) (c : config) :
  __init__ cfg = Ok self ->
  reaches self (initial_config self input_string) c ->
  mem_cache c <> Some EmptyString /\
  Forall (fun s => s <> Some EmptyString) (tape c) /\
  scanned c <> Some EmptyString /\
  (forall x : Transition.t,
      find_transition self (current_state c) (mem_cache c) (scanned c) = Some x
      <-> first_match
            (fun y => spec_matches y (current_state c) (mem_cache c) (scanned c))
            (transitions self) x).
Proof.
  intros Hinit R.
  pose proof (reaches_no_empty_string self _ _ (init_output_normal _ _ Hinit)
                (initial_near_tape self input_string)
                (initial_no_empty_string self input_string) R) as Hclean.
  pose proof (scanned_no_empty_string c Hclean) as Hscan.
  destruct Hclean as [Hcache Htape].
  split; [exact Hcache|]. split; [exact Htape|]. split; [exact Hscan|].
  pose proof (init_normal cfg self Hinit) as Hnormal.
  rewrite Forall_forall in Hnormal.
  intros x. rewrite find_transition_find_in, find_in_first.
  split; apply first_match_ext; intros y Hy;
    [|symmetry]; apply code_matches_spec; auto.
Qed.

Lemma run_lookups_are_normalized_witness :
  __init__ spin_config_empty = Ok spin_machine /\
  scanned (mk_config [None] 0 "q0" None) <> Some EmptyString.
Proof.
  split; [reflexivity|].
  assert (R : reaches spin_machine (initial_config spin_machine EmptyString)
                      (mk_config [None] 0 "q0" None)).
  { eapply reaches_step; [apply reaches_here | reflexivity]. }
  exact (proj1 (proj2 (proj2 (run_lookups_are_normalized spin_config_empty
                                spin_machine EmptyString _ eq_refl R)))).
Defined.

(** X12. [find_transition] does not take an empty string as blank when it
    is the cache or the symbol asked for: on a machine built by the
    constructor such a lookup returns [None], whatever the table. *)
Theorem empty_string_matches_nothing (config : Config.t) (self : t)
    (state : string) (cache symbol : option string) :
  __init__ config = Ok self ->
  cache = Some EmptyString \/ symbol = Some EmptyString ->
  find_transition self state cache symbol = None.
Proof.
  intros Hinit Hempty.
  pose proof (init_normal config self Hinit) as Hnormal.
  rewrite Forall_forall in Hnormal.
  rewrite find_transition_find_in. apply find_in_none.
  intros x Hx. apply code_matches_empty; auto.
Qed.

Lemma empty_string_matches_nothing_witness :
  __init__ spin_config = Ok spin_machine /\
  find_transition spin_machine "q0" (Some EmptyString) None = None.
Proof.
  split; [reflexivity|].
  apply (empty_string_matches_nothing spin_config spin_machine
           "q0" (Some EmptyString) None eq_refl).
  now left.
Defined.

(** ** What the constructor accepts and what it stores *)





Lemma stores_get (v : option (option string)) :
  stores v (blank_if_empty (Config.get v)).
Proof.
  destruct v as [[s|]|]; simpl.
  - destruct (String.eqb s EmptyString) eqn:He.
    + apply String.eqb_eq in He. subst s. left. auto.
    + apply String.eqb_neq in He. right. exists s. auto.
  - left. auto.
  - left. auto.
Qed.

Lemma make_transition_built_from (d : Config.delta_item) (x : Transition.t) :
  make_transition d = Ok x -> built_from d x.
Proof.
  unfold make_transition, built_from.
  destruct (Config.tape_input (Config.params d)) as [ti|] eqn:Hti; simpl;
    [|discriminate].
  destruct (Config.initial_state (Config.params d)); simpl; [|discriminate].
  destruct (Config.final_state (Config.output d)); simpl; [|discriminate].
  destruct (Config.tape_displacement (Config.output d)); simpl; [|discriminate].
  intros [= <-]. simpl.
  split; [reflexivity|]. split; [apply stores_get|].
  split; [apply (stores_get (Some ti))|]. split; [reflexivity|].
  split; [apply stores_get|]. split; [apply stores_get | reflexivity].
Qed.

Lemma make_transitions_built_from (delta : list Config.delta_item) :
  forall l, make_transitions delta = Ok l -> Forall2 built_from delta l.
Proof.
  induction delta as [|d delta IH]; intros l; simpl.
  - intros [= <-]. constructor.
  - destruct (make_transition d) as [x| |] eqn:Hd; simpl; try discriminate.
    destruct (make_transitions delta) as [l'| |]; simpl; try discriminate.
    intros [= <-].
    constructor; [now apply make_transition_built_from | now apply IH].
Qed.

(** X14. A machine the constructor builds holds the states, the initial and
    final state and the alphabets of the configuration, an empty list of
    simulation strings when the key is missing, and one transition per
    [delta] item, in the order of the items: states and displacement are
    copied, and each of cache operand, tape operand, cache result and tape
    output is blank when the key is missing, [null] or the empty string
    and the string given otherwise. *)
Theorem init_stores (config : Config.t) (self : t) :
  __init__ config = Ok self ->
  states self = Config.q_list (Config.q_states config) /\
  initial_state self = Config.initial (Config.q_states config) /\
  final_state self = Config.final (Config.q_states config) /\
  alphabet self = Config.alphabet config /\
  tape_alphabet self = Config.tape_alphabet config /\
  (Config.simulation_strings config = None -> simulation_strings self = []) /\
  (forall l, Config.simulation_strings config = Some l ->
             simulation_strings self = l) /\
  Forall2 built_from (Config.delta config) (transitions self).
Proof.
  unfold __init__.
  destruct (make_transitions (Config.delta config)) as [l| |] eqn:Hl; simpl;
    try discriminate.
  intros [= <-]. simpl.
  do 5 (split; [reflexivity|]).
  split; [now intros ->|].
  split; [now intros l' ->|].
  now apply make_transitions_built_from.
Qed.

Lemma init_stores_witness :
  __init__ spin_config_empty = Ok spin_machine /\
  Forall2 built_from (Config.delta spin_config_empty) (transitions spin_machine).
Proof.
  split; [reflexivity|].
  apply (init_stores spin_config_empty spin_machine eq_refl).
Defined.

(** ** Loading a configuration *)

(** X15. [parse_yaml_file] returns the loaded dictionary unchanged exactly
    when it has the keys [q_states], [alphabet], [tape_alphabet] and
    [delta]; otherwise it raises [ValueError] with a message that names
    the first of these keys, in this order, that is missing.  It does not
    ask for [simulation_strings] and does not look inside the values. *)
Theorem parse_yaml_file_checks (config : Document.t) :
  (Document.q_states config <> None /\
   Document.alphabet config <> None /\
   Document.tape_alphabet config <> None /\
   Document.delta config <> None <->
   parse_yaml_file config = Returned config) /\
  (forall r, parse_yaml_file config = Returned r -> r = config) /\
  (Document.q_states config = None ->
   parse_yaml_file config
   = ValueError "El archivo YAML debe contener 'q_states'") /\
  (Document.q_states config <> None -> Document.alphabet config = None ->
   parse_yaml_file config
   = ValueError "El archivo YAML debe contener 'alphabet'") /\
  (Document.q_states config <> None -> Document.alphabet config <> None ->
   Document.tape_alphabet config = None ->
   parse_yaml_file config
   = ValueError "El archivo YAML debe contener 'tape_alphabet'") /\
  (Document.q_states config <> None -> Document.alphabet config <> None ->
   Document.tape_alphabet config <> None -> Document.delta config = None ->
   parse_yaml_file config
   = ValueError "El archivo YAML debe contener 'delta'").
Proof.
  unfold parse_yaml_file.
  destruct (Document.q_states config) as [q|];
    destruct (Document.alphabet config) as [a|];
    destruct (Document.tape_alphabet config) as [ta|];
    destruct (Document.delta config) as [d|]; simpl;
    repeat split; intros; try congruence; try tauto;
    repeat match goal with
           | H : _ /\ _ |- _ => destruct H
           end; congruence.
Qed.

Lemma parse_yaml_file_checks_witness :
  parse_yaml_file spin_document = Returned spin_document /\
  parse_yaml_file no_delta_document
  = ValueError "El archivo YAML debe contener 'delta'".
Proof.
  split.
  - apply (proj1 (parse_yaml_file_checks spin_document)).
    repeat split; discriminate.
  - apply (proj2 (proj2 (proj2 (proj2 (proj2
             (parse_yaml_file_checks no_delta_document))))));
      solve [discriminate | reflexivity].
Defined.



(** ** Entries on the same key *)

Lemma find_in_app (l1 l2 : list Transition.t) (state : string)
    (cache symbol : option string) :
  find_in (l1 ++ l2)%list state cache symbol
  = match find_in l1 state cache symbol with
    | Some x => Some x
    | None => find_in l2 state cache symbol
    end.
Proof.
  induction l1 as [|x l1 IH]; [reflexivity|].
  rewrite <- app_comm_cons.
  destruct (code_matches_dec state cache symbol x) as [Hx | Hx].
  - now rewrite !(find_in_match state cache symbol x _ Hx).
  - now rewrite !(find_in_no_match state cache symbol x _ Hx).
Qed.

Lemma find_in_shadowed (x y : Transition.t) (l2 l3 : list Transition.t)
    (state : string) (cache symbol : option string) :
  same_key x y ->
  find_in (x :: l2 ++ y :: l3)%list state cache symbol
  = find_in (x :: l2 ++ l3)%list state cache symbol.
Proof.
  intros (Hs & Hc & Hi).
  destruct (code_matches_dec state cache symbol x) as [Hx | Hx].
  - now rewrite !(find_in_match state cache symbol x _ Hx).
  - rewrite !(find_in_no_match state cache symbol x _ Hx), !find_in_app.
    destruct (find_in l2 state cache symbol); [reflexivity|].
    rewrite find_in_no_match; [reflexivity|].
    intros (Hs' & Hc' & Hi'). apply Hx. unfold code_matches.
    rewrite Hs, Hc, Hi. auto.
Qed.

(** X17. A table entry on the same key as an earlier entry (the same state,
    cache operand and tape operand) is never used: taking it out of the
    table changes the result of [simulate] on no input. *)
Theorem shadowed_entry_is_dead (self : t) (l1 l2 l3 : list Transition.t)
    (x y : Transition.t) (input_string : string) :
  transitions self = (l1 ++ x :: l2 ++ y :: l3)%list ->
  same_key x y ->
  simulate (with_transitions self (l1 ++ x :: l2 ++ l3)%list) input_string
  = simulate self input_string.
Proof.
  intros Htable Hkey.
  unfold simulate, initial_config. cbn [with_transitions initial_state].
  apply while_loop_ext; [reflexivity|].
  intros c. unfold apply_step, find_transition.
  cbn [with_transitions transitions]. rewrite Htable.
  destruct (extend (tape c) (tape_position c)) as [tape1 position1].
  destruct (Py.getitem tape1 position1) as [symbol| |]; cbn [bind];
    try reflexivity.
  rewrite !(find_in_app l1).
  now rewrite (find_in_shadowed x y l2 l3 _ _ _ Hkey).
Qed.

Lemma shadowed_entry_is_dead_witness :
  same_key writer_rule shadowed_rule /\
  simulate (with_transitions writer_machine [writer_rule]) "a"
  = simulate (with_transitions writer_machine [writer_rule; shadowed_rule]) "a".
Proof.
  assert (Hkey : same_key writer_rule shadowed_rule) by (repeat split).
  split; [exact Hkey|].
  exact (shadowed_entry_is_dead
           (with_transitions writer_machine [writer_rule; shadowed_rule])
           [] [] [] writer_rule shadowed_rule "a" eq_refl Hkey).
Defined.

(** ** Acceptance *)

Lemma chain_to_final_run (self : t) (cs : list config) :
  forall (c : config) (step : Z),
    chain self c cs ->
    cs <> [] ->
    current_state (last cs c) = final_state self ->
    step + Z.of_nat (List.length cs) <= max_steps ->
    exists cs', run self step c cs' HaltFinal.
Proof.
  induction cs as [|c' cs IH]; intros c step Hc Hne Hlast Hlen;
    [contradiction|].
  destruct Hc as [Hs Hc]. rewrite last_cons in Hlast.
  cbn [List.length] in Hlen.
  destruct (string_dec (current_state c') (final_state self)) as [Hf | Hf].
  - exists [c']. apply run_final; [lia | exact Hs | exact Hf].
  - destruct cs as [|d cs]; [contradiction|].
    destruct (IH c' (step + 1) Hc ltac:(discriminate) Hlast ltac:(lia))
      as (cs' & Hrun).
    exists (c' :: cs'). apply run_next; [lia | exact Hs | exact Hf | exact Hrun].
Qed.

(** X18. [simulate] accepts exactly when applying transitions from the
    initial configuration leads to the final state within 10,000
    transitions, at least one being applied; a machine that would first
    reach its final state later is rejected. *)
Theorem accepts_iff_final_within_bound (self : t) (input_string : string) :
  (exists trace : list string, simulate self input_string = Ok (trace, true))
  <->
  (exists cs : list config,
      cs <> [] /\
      chain self (initial_config self input_string) cs /\
      Z.of_nat (List.length cs) <= 10000 /\
      current_state (last cs (initial_config self input_string))
      = final_state self).
Proof.
  destruct (simulate_run self input_string) as (cs & h & Hrun & Hres).
  split.
  - intros (trace & Hsim). rewrite Hres in Hsim. injection Hsim as _ Hacc.
    destruct h; try discriminate.
    destruct (run_final_last self 0 _ _ Hrun) as [Hne Hlast].
    exists cs. split; [exact Hne|].
    split; [exact (run_chain self 0 _ _ _ Hrun)|].
    split; [|exact Hlast].
    pose proof (run_length self 0 _ _ _ Hrun). unfold max_steps in *. lia.
  - intros (cs0 & Hne & Hc & Hlen & Hlast).
    destruct (chain_to_final_run self cs0 _ 0 Hc Hne Hlast) as (cs' & Hrun');
      [unfold max_steps; lia|].
    destruct (run_functional self _ _ _ _ _ _ Hrun Hrun') as [-> ->].
    eexists. exact Hres.
Qed.
